(** * notary: the [keys] sub-commands of the command-line client

    A shallow embedding of [cmd/notary/keys.go] and the properties its
    specification states about it.

    Definitions:
    - [GoStrings]: byte strings and the functions of Go's [strings] package
      the file calls;
    - [Filepath]: the functions of [path/filepath] it calls (Unix flavour,
      separator [/]);
    - [Unicode]: [strings.EqualFold] with the UTF-8 decoder and the case
      folding it rests on;
    - [Pkix], [X509], [Time], [Rand]: the certificate fields the file sets,
      durations, and [crypto/rand.Int];
    - section [Keys]: the commands themselves as programs over an explicit
      world (trust store, standard input, entropy, clock, event trace),
      with [filepath.Walk];
    - [Sample]: one concrete environment to run the commands in.

    Properties:
    - [PathFacts] and section [Enumerator]: the listing of signing keys;
    - sections [Remove], [Trust], [Generate], [Confirmation]: the commands
      that change the trust store;
    - [RandFacts] and section [NewCertificate]: the certificate template;
    - [CaseInsensitive] and section [Confirm]: the yes/no prompt;
    - section [Further], [WalkFacts] and section [WalkRecords]: what else
      holds of the commands, and the listing seen from the walk;
    - sections [List], [GenerateOutcomes], [TrustOutcomes],
      [NewCertificateEffects], [TrailingSeparator] and [RemoveEffects]:
      each command case by case, and what it leaves alone. *)

From Stdlib Require Import String Ascii List ZArith Bool Lia.
Import ListNotations.

Local Open Scope string_scope.

(* ------------------------------------------------------------------ *)
(** ** Byte strings

    A Go [string] is a sequence of bytes; [String.string] is the same thing
    with [ascii] as the byte type. *)

Module GoStrings.

(** [len(s)]. *)
Definition len (s : string) : nat := String.length s.

(** [s[n:]] for [n <= len(s)]; the caller checks the bound. *)
Fixpoint drop (n : nat) (s : string) : string :=
  match n, s with
  | O, _ => s
  | S n', String _ r => drop n' r
  | S _, EmptyString => EmptyString
  end.

(** [s[:n]] for [n <= len(s)]. *)
Fixpoint take (n : nat) (s : string) : string :=
  match n, s with
  | O, _ => EmptyString
  | S n', String c r => String c (take n' r)
  | S _, EmptyString => EmptyString
  end.

(** [strings.HasPrefix(s, prefix)]:
    [len(s) >= len(prefix) && s[0:len(prefix)] == prefix]. *)
Definition HasPrefix (s prefix : string) : bool :=
  (len prefix <=? len s)%nat && String.eqb (take (len prefix) s) prefix.

(** [strings.HasSuffix(s, suffix)]:
    [len(s) >= len(suffix) && s[len(s)-len(suffix):] == suffix]. *)
Definition HasSuffix (s suffix : string) : bool :=
  (len suffix <=? len s)%nat && String.eqb (drop (len s - len suffix) s) suffix.

(** [strings.TrimPrefix]: [s] without the leading [prefix]; [s] itself when
    it does not start with it. *)
Definition TrimPrefix (s prefix : string) : string :=
  if HasPrefix s prefix then drop (len prefix) s else s.

(** [strings.TrimSuffix]: [s] without the trailing [suffix]; [s] itself when
    it does not end with it. *)
Definition TrimSuffix (s suffix : string) : string :=
  if HasSuffix s suffix then take (len s - len suffix) s else s.

(** The value of a byte, in [0, 256). *)
Definition byte_val (c : ascii) : Z := Z.of_N (N_of_ascii c).

(** The slice expression [s[1:]].  Go panics when [len(s) < 1]. *)
Definition slice_from_1 (s : string) : option string :=
  match s with
  | EmptyString => None
  | String _ r => Some r
  end.

(** The slice expression [s[0:1]].  Go panics when [len(s) < 1]. *)
Definition slice_0_1 (s : string) : option string :=
  match s with
  | EmptyString => None
  | String c _ => Some (String c EmptyString)
  end.

End GoStrings.

(* ------------------------------------------------------------------ *)
(** ** path/filepath on Unix *)

Module Filepath.

Import GoStrings.

(** [os.IsPathSeparator] on Unix. *)
Definition IsPathSeparator (c : ascii) : bool := Ascii.eqb c "/".

Definition is_dot (c : ascii) : bool := Ascii.eqb c ".".

(** The scan both [Dir] and [Base] do: [i] runs down from the end of
    [path] while [path[i]] is not a separator.  The result is
    [(path[:i+1], path[i+1:])]: everything up to and including the last
    separator, and the final element. *)
Fixpoint split_last (path : string) : string * string :=
  match path with
  | EmptyString => (EmptyString, EmptyString)
  | String c r =>
      let (d, f) := split_last r in
      match d with
      | EmptyString =>
          if IsPathSeparator c then (String c EmptyString, f)
          else (EmptyString, String c f)
      | _ => (String c d, f)
      end
  end.

(** The suffix of [elem] that starts at its last dot, [""] without one. *)
Fixpoint from_last_dot (elem : string) : string :=
  match elem with
  | EmptyString => EmptyString
  | String c r =>
      match from_last_dot r with
      | EmptyString => if is_dot c then String c r else EmptyString
      | e => e
      end
  end.

(** [filepath.Ext]: the suffix beginning at the final dot in the final
    element of [path]; empty if there is no dot.  (The Go loop walks back
    from the end, stops at a separator and returns [path[i:]] at the first
    dot it meets.) *)
Definition Ext (path : string) : string := from_last_dot (snd (split_last path)).

(** [path] without its trailing separators (the first loop of [Base]). *)
Fixpoint strip_trailing_seps (path : string) : string :=
  match path with
  | EmptyString => EmptyString
  | String c r =>
      match strip_trailing_seps r with
      | EmptyString => if IsPathSeparator c then EmptyString else String c EmptyString
      | r' => String c r'
      end
  end.

(** [filepath.Base]: the last element of [path]; trailing separators are
    removed first; ["."] for the empty path and ["/"] for a path of
    separators only. *)
Definition Base (path : string) : string :=
  match path with
  | EmptyString => "."
  | _ =>
      match snd (split_last (strip_trailing_seps path)) with
      | EmptyString => "/"
      | elem => elem
      end
  end.

(** The elements of [path] between separators, empty ones included. *)
Fixpoint elements (path : string) : list string :=
  match path with
  | EmptyString => [EmptyString]
  | String c r =>
      if IsPathSeparator c then EmptyString :: elements r
      else match elements r with
           | e :: es => String c e :: es
           | [] => [String c EmptyString]
           end
  end.

(** One round of the loop of [Clean] on the element [e].  [out] is the
    output buffer as a stack of elements, last written first.  An empty
    element and ["."] write nothing; [".."] removes the last real element
    when there is one ([out.w > dotdot]), is kept on a path that is not
    rooted, and is dropped on a rooted one; any other element is
    appended. *)
Definition clean_step (rooted : bool) (out : list string) (e : string)
  : list string :=
  if String.eqb e "" then out
  else if String.eqb e "." then out
  else if String.eqb e ".." then
    match out with
    | top :: rest =>
        if String.eqb top ".." then (if rooted then out else e :: out)
        else rest
    | [] => if rooted then [] else [e]
    end
  else e :: out.

(** [filepath.Clean]: the shortest path name equivalent to [path] by purely
    lexical processing.  The empty path gives ["."]. *)
Definition Clean (path : string) : string :=
  match path with
  | EmptyString => "."
  | String c _ =>
      let rooted := IsPathSeparator c in
      let out := fold_left (clean_step rooted) (elements path) [] in
      let body := String.concat "/" (rev out) in
      if rooted then "/" ++ body
      else match body with
           | EmptyString => "."
           | _ => body
           end
  end.

(** [filepath.Dir]: all but the last element of [path], cleaned. *)
Definition Dir (path : string) : string := Clean (fst (split_last path)).

(** The star loop of [filepath.Match] for the pattern ["*.key"]: try the
    chunk [".key"] after skipping [i+1] bytes, for each [i] while
    [name[i]] is not a separator, and accept only when the chunk exhausts
    the name. *)
Fixpoint match_star_key (name : string) : bool :=
  match name with
  | EmptyString => false
  | String c r =>
      if IsPathSeparator c then false
      else if String.eqb r ".key" then true
      else match_star_key r
  end.

(** [filepath.Match("*.key", name)].  The pattern is well formed, so the
    error result is always [nil]; only [matched] is kept. *)
Definition Match_star_key (name : string) : bool :=
  if String.eqb name ".key" then true else match_star_key name.

End Filepath.

(* ------------------------------------------------------------------ *)
(** ** Runes and case folding

    [strings.EqualFold] compares two strings rune by rune under Unicode
    simple case folding.  Runes are code points, kept as [Z]. *)

Module Unicode.

Import GoStrings.

Local Open Scope Z_scope.

Definition RuneError : Z := 65533.   (* U+FFFD *)
Definition RuneSelf : Z := 128.

Definition outside (lo hi b : Z) : bool := (b <? lo) || (hi <? b).

(** [utf8.DecodeRuneInString]: the first rune of [s] and its width in
    bytes; [(RuneError, 0)] for the empty string and [(RuneError, 1)] for
    an encoding that is invalid, too short, over-long, a surrogate half or
    out of range. *)
Definition DecodeRuneInString (s : string) : Z * nat :=
  match s with
  | EmptyString => (RuneError, 0%nat)
  | String c0 r0 =>
      let b0 := byte_val c0 in
      if b0 <? 128 then (b0, 1%nat)
      else if outside 194 244 b0 then (RuneError, 1%nat)
      else
        let lo := if b0 =? 224 then 160 else if b0 =? 240 then 144 else 128 in
        let hi := if b0 =? 237 then 159 else if b0 =? 244 then 143 else 191 in
        match r0 with
        | EmptyString => (RuneError, 1%nat)
        | String c1 r1 =>
            let b1 := byte_val c1 in
            if outside lo hi b1 then (RuneError, 1%nat)
            else if b0 <? 224 then
              (Z.lor (Z.shiftl (Z.land b0 31) 6) (Z.land b1 63), 2%nat)
            else
              match r1 with
              | EmptyString => (RuneError, 1%nat)
              | String c2 r2 =>
                  let b2 := byte_val c2 in
                  if outside 128 191 b2 then (RuneError, 1%nat)
                  else if b0 <? 240 then
                    (Z.lor (Z.shiftl (Z.land b0 15) 12)
                       (Z.lor (Z.shiftl (Z.land b1 63) 6) (Z.land b2 63)),
                     3%nat)
                  else
                    match r2 with
                    | EmptyString => (RuneError, 1%nat)
                    | String c3 _ =>
                        let b3 := byte_val c3 in
                        if outside 128 191 b3 then (RuneError, 1%nat)
                        else
                          (Z.lor (Z.shiftl (Z.land b0 7) 18)
                             (Z.lor (Z.shiftl (Z.land b1 63) 12)
                                (Z.lor (Z.shiftl (Z.land b2 63) 6)
                                   (Z.land b3 63))),
                           4%nat)
                    end
              end
        end
  end.

(** [unicode.SimpleFold] on the folding orbits of the ASCII runes: a letter
    goes to its other case, and the two orbits of three are
    [K -> k -> U+212A (Kelvin sign) -> K] and
    [S -> s -> U+017F (long s) -> S].  A rune without a fold partner is
    its own image.  [EqualFold] only ever folds the smaller of the two
    runes it compares, so with an ASCII operand on one side no rune
    outside these orbits is folded; elsewhere this table is not the
    Unicode one. *)
Definition SimpleFold (r : Z) : Z :=
  if r =? 107 then 8490            (* k -> Kelvin sign *)
  else if r =? 115 then 383        (* s -> long s *)
  else if r =? 8490 then 75        (* Kelvin sign -> K *)
  else if r =? 383 then 83         (* long s -> S *)
  else if (65 <=? r) && (r <=? 90) then r + 32
  else if (97 <=? r) && (r <=? 122) then r - 32
  else r.

(** The inner loop of [EqualFold]:
    [for r != sr && r < tr { r = unicode.SimpleFold(r) }].  An orbit has at
    most four runes, which bounds the number of rounds. *)
Fixpoint fold_towards (rounds : nat) (sr tr r : Z) : Z :=
  match rounds with
  | O => r
  | S n =>
      if negb (r =? sr) && (r <? tr) then fold_towards n sr tr (SimpleFold r)
      else r
  end.

(** The first rune of a non-empty string and the rest of the string, as
    [EqualFold] extracts it: a byte below [RuneSelf] is the rune. *)
Definition next_rune (s : string) : Z * string :=
  match s with
  | EmptyString => (RuneError, EmptyString)
  | String c r =>
      if byte_val c <? RuneSelf then (byte_val c, r)
      else let (rn, size) := DecodeRuneInString s in (rn, drop size s)
  end.

(** One round of the loop of [strings.EqualFold] on the runes [sr0] and
    [tr0]: [true] where the loop continues, [false] where it returns
    [false]. *)
Definition equal_fold_rune (sr0 tr0 : Z) : bool :=
  (* Easy case. *)
  if sr0 =? tr0 then true
  else
    (* Make sr < tr to simplify what follows. *)
    let sr := Z.min sr0 tr0 in
    let tr := Z.max sr0 tr0 in
    if (tr <? RuneSelf) && (65 <=? sr) && (sr <=? 90) then
      (* ASCII, and sr is upper case: tr must be lower case. *)
      tr =? sr + 32
    else
      (* General case: SimpleFold(x) returns the next equivalent rune > x
         or wraps around to smaller values. *)
      fold_towards 4 sr tr (SimpleFold sr) =? tr.

(** The loop of [strings.EqualFold]; each round consumes at least one byte
    of [s], which bounds [rounds] by [len(s)]. *)
Fixpoint EqualFold_loop (rounds : nat) (s t : string) : bool :=
  match s, t with
  | EmptyString, _ => String.eqb s t       (* One string is empty. *)
  | _, EmptyString => String.eqb s t       (* Are both? *)
  | _, _ =>
      match rounds with
      | O => false
      | S n =>
          let (sr, s') := next_rune s in
          let (tr, t') := next_rune t in
          if equal_fold_rune sr tr then EqualFold_loop n s' t' else false
      end
  end.

(** [strings.EqualFold(s, t)]. *)
Definition EqualFold (s t : string) : bool := EqualFold_loop (len s) s t.

End Unicode.

(* ------------------------------------------------------------------ *)
(** ** crypto/x509, time and crypto/rand *)

Module Pkix.

(** [pkix.Name], the two fields the client sets. *)
Record Name : Type := mkName {
  Organization : list string;
  CommonName : string
}.

End Pkix.

Module X509.

Local Open Scope Z_scope.

(** [x509.KeyUsage] is a bit set: [1 << iota] in declaration order. *)
Definition KeyUsageDigitalSignature : Z := Z.shiftl 1 0.
Definition KeyUsageContentCommitment : Z := Z.shiftl 1 1.
Definition KeyUsageKeyEncipherment : Z := Z.shiftl 1 2.
Definition KeyUsageDataEncipherment : Z := Z.shiftl 1 3.
Definition KeyUsageKeyAgreement : Z := Z.shiftl 1 4.
Definition KeyUsageCertSign : Z := Z.shiftl 1 5.
Definition KeyUsageCRLSign : Z := Z.shiftl 1 6.
Definition KeyUsageEncipherOnly : Z := Z.shiftl 1 7.
Definition KeyUsageDecipherOnly : Z := Z.shiftl 1 8.

(** [x509.ExtKeyUsage]. *)
Inductive ExtKeyUsage : Type :=
| ExtKeyUsageAny
| ExtKeyUsageServerAuth
| ExtKeyUsageClientAuth
| ExtKeyUsageCodeSigning
| ExtKeyUsageEmailProtection
| ExtKeyUsageTimeStamping
| ExtKeyUsageOCSPSigning.

(** [x509.Certificate], the fields the client sets or reads.  Instants are
    nanoseconds since the epoch. *)
Record Certificate : Type := mkCertificate {
  SerialNumber : Z;
  Subject : Pkix.Name;
  NotBefore : Z;
  NotAfter : Z;
  KeyUsage : Z;
  ExtKeyUsages : list ExtKeyUsage;
  BasicConstraintsValid : bool
}.

End X509.

Module Time.

Local Open Scope Z_scope.

(** [time.Duration] is an [int64] count of nanoseconds. *)
Definition int64 (z : Z) : Z := (z + 2 ^ 63) mod 2 ^ 64 - 2 ^ 63.

Definition Nanosecond : Z := 1.
Definition Microsecond : Z := 1000 * Nanosecond.
Definition Millisecond : Z := 1000 * Microsecond.
Definition Second : Z := 1000 * Millisecond.
Definition Minute : Z := 60 * Second.
Definition Hour : Z := 60 * Minute.

(** [t.Add(d)]. *)
Definition Add (t d : Z) : Z := t + d.

(** [t.Sub(u)]: the duration [t-u], saturated at the ends of [int64]. *)
Definition Sub (t u : Z) : Z :=
  Z.max (- 2 ^ 63) (Z.min (2 ^ 63 - 1) (t - u)).

End Time.

Module Rand.

Import GoStrings.

Local Open Scope Z_scope.

(** [big.Int.SetBytes]: the bytes as a big-endian unsigned integer. *)
Definition SetBytes (bytes : list Z) : Z :=
  fold_left (fun acc b => acc * 256 + b) bytes 0.

(** [n.BitLen()] for [n >= 0]. *)
Definition BitLen (n : Z) : Z := if n <=? 0 then 0 else Z.log2 n + 1.

(** [bytes[0] &= uint8(int(1<<b) - 1)]. *)
Definition mask_first (b : Z) (bytes : list Z) : list Z :=
  match bytes with
  | b0 :: tl => Z.land b0 (Z.shiftl 1 b - 1) :: tl
  | [] => []
  end.

(** The loop of [rand.Int]: read [k] bytes, clear the bits of the first
    byte above bit [b], and return the candidate when it is below [max];
    otherwise read again.  [reader] is what [rand.Reader] will deliver, a
    finite list of bytes; reading past its end is the read error.  Each
    round consumes [k >= 1] bytes, so as many rounds as [reader] has bytes
    are enough. *)
Fixpoint Int_loop (rounds : nat) (k : nat) (b : Z) (max : Z)
  (reader : list ascii) : option Z * list ascii :=
  match rounds with
  | O => (None, reader)
  | S n =>
      if (length reader <? k)%nat then (None, [])
      else
        let bytes := mask_first b (map byte_val (firstn k reader)) in
        let rest := skipn k reader in
        let cand := SetBytes bytes in
        if cand <? max then (Some cand, rest) else Int_loop n k b max rest
  end.

(** [rand.Int(rand.Reader, max)] for [max > 0]: a value in [[0, max)], or
    [None] for the error result.  The byte count and the mask come from
    the bit length of [max - 1], the largest value that may be returned,
    as in the current library; older releases took them from [max] itself
    and so read one byte more for a power of 256.  The result is below
    [max] either way, since the loop only leaves on that test. *)
Definition Int (reader : list ascii) (max : Z) : option Z * list ascii :=
  let bitLen := BitLen (max - 1) in
  if bitLen =? 0 then (Some 0, reader)
  else
    let k := Z.to_nat ((bitLen + 7) / 8) in
    let b := if bitLen mod 8 =? 0 then 8 else bitLen mod 8 in
    Int_loop (S (length reader)) k b max reader.

End Rand.

(* ------------------------------------------------------------------ *)
(** ** Commands as programs over a world *)

(** How a command ends: it returns, the process exits ([os.Exit]), or the
    Go runtime panics. *)
Inductive result (A : Type) : Type :=
| Done (a : A)
| Exited (code : Z)
| Panicked (msg : string).

Arguments Done {A} a.
Arguments Exited {A} code.
Arguments Panicked {A} msg.

(** What [fmt.Scanln(&res)] leaves behind: the value of [res] and the
    error it returned. *)
Record ScanResult : Type := mkScan {
  token : string;
  scan_err : option string
}.

(** [os.FileInfo], the two methods the walk callback calls. *)
Record FileInfo : Type := mkFileInfo {
  Name : string;
  IsDir : bool
}.

(** [url.URL], the field the client reads. *)
Record URL : Type := mkURL {
  Scheme : string
}.

(** The error a [filepath.WalkFunc] returns: the sentinel [filepath.SkipDir]
    or any other error. *)
Inductive WalkErr : Type :=
| SkipDir
| WalkFailed (msg : string).

(** What [filepath.Walk] meets under a directory: a file, a directory with
    its listing ([None] when the directory cannot be read), or a name that
    cannot be [Lstat]ed.  Listings are in the order [readDirNames] returns
    them (sorted). *)
#[warning="-register-all"]
Inductive Node : Type :=
| NFile (name : string)
| NDir (name : string) (listing : option (list Node))
| NBroken (name : string).

Definition node_name (n : Node) : string :=
  match n with
  | NFile name => name
  | NDir name _ => name
  | NBroken name => name
  end.

Definition node_is_dir (n : Node) : bool :=
  match n with
  | NDir _ _ => true
  | _ => false
  end.

(** Observable steps of a command, in the order they happen. *)
Inductive event : Type :=
| Printed (text : string)                 (* fmt.Printf, fmt.Println *)
| PrintedCert (c : X509.Certificate)      (* the line printCert writes *)
| Usage                                   (* cmd.Usage() *)
| Fatal (msg : string)                    (* the message given to fatalf *)
| StoreGet (kid : string)                 (* caStore.GetCertificateBykID *)
| StoreAdd (c : X509.Certificate)         (* caStore.AddCert *)
| StoreRemove (c : X509.Certificate)      (* caStore.RemoveCert *)
| Fetched (location : string)             (* trustmanager.GetCertFromURL *)
| Statted (path : string)                 (* os.Stat *)
| Loaded (path : string)                  (* trustmanager.LoadCertFromFile *)
| Scanned (r : ScanResult).               (* fmt.Scanln *)

Definition nl : string := String (ascii_of_nat 10) EmptyString.
Definition backslash : string := String (ascii_of_nat 92) EmptyString.

Section Keys.

Import GoStrings Filepath Unicode X509.

(** *** What the file takes from its surroundings

    The trust store [caStore] and the helpers of package [trustmanager],
    [net/url], [os] and the configuration are not part of this file; the
    commands are stated over any behaviour they may have.  An [inr] or a
    [Some] carries the text of a non-nil [error]. *)

Variable Store : Type.
Variable GetCertificateBykID : Store -> string -> Certificate + string.
Variable GetCertificates : Store -> list Certificate.
Variable AddCert : Store -> Certificate -> Store * option string.
Variable RemoveCert : Store -> Certificate -> Store * option string.
Variable FingerprintCert : Certificate -> string.
Variable GetCertFromURL : string -> Certificate + string.
Variable LoadCertFromFile : string -> Certificate + string.
Variable url_Parse : string -> URL + string.
Variable os_Stat : string -> option string.

(** [viper.GetString("privDir")]. *)
Variable privDir : string.

(** The state a command runs in. *)
Record World : Type := mkWorld {
  store : Store;                 (* caStore *)
  stdin : list ScanResult;       (* what each coming Scanln will read *)
  entropy : list ascii;          (* what rand.Reader will deliver *)
  clock : Z;                     (* time.Now(), nanoseconds *)
  trace : list event             (* what has happened so far *)
}.

Definition M (A : Type) : Type := World -> result A * World.

Definition ret {A : Type} (a : A) : M A := fun w => (Done a, w).

Definition bind {A B : Type} (m : M A) (k : A -> M B) : M B :=
  fun w =>
    match m w with
    | (Done a, w') => k a w'
    | (Exited code, w') => (Exited code, w')
    | (Panicked msg, w') => (Panicked msg, w')
    end.

Notation "x <- m ;; k" := (bind m (fun x => k))
  (at level 61, m at next level, right associativity).
Notation "m ;; k" := (bind m (fun _ => k))
  (at level 61, right associativity).

Definition emit (e : event) : M unit :=
  fun w => (Done tt, mkWorld (store w) (stdin w) (entropy w) (clock w)
                              (trace w ++ [e])).

Definition exit {A : Type} (code : Z) : M A := fun w => (Exited code, w).

Definition panic {A : Type} (msg : string) : M A := fun w => (Panicked msg, w).

Definition when (b : bool) (m : M unit) : M unit := if b then m else ret tt.

(** Modelled from the spec: [fatalf] is defined elsewhere in package
    [main].  The spec leaves the exit-code plumbing to the process and says
    of each operation that reaches such a call that it fails with the
    error in question: the formatted message is reported and the process
    exits with status 1, so nothing after the call runs. *)
Definition fatalf {A : Type} (msg : string) : M A :=
  emit (Fatal msg) ;; exit 1.

(** [generateKeyAndCert] is defined elsewhere in package [main]; it
    returns a key (unused here), a certificate and an error. *)
Variable generateKeyAndCert : string -> M (Certificate + string).

(** [fmt.Scanln(&res)]: the next line of standard input; at the end of
    input the error is [io.EOF] and [res] stays empty. *)
Definition Scanln : M ScanResult :=
  fun w =>
    match stdin w with
    | r :: rest =>
        (Done r, mkWorld (store w) rest (entropy w) (clock w)
                         (trace w ++ [Scanned r]))
    | [] =>
        let r := mkScan "" (Some "EOF") in
        (Done r, mkWorld (store w) [] (entropy w) (clock w)
                         (trace w ++ [Scanned r]))
    end.

(** The decision [askConfirm] takes on what [Scanln] returned. *)
Definition affirmative (r : ScanResult) : bool :=
  match scan_err r with
  | Some _ => false
  | None => EqualFold (token r) "y" || EqualFold (token r) "yes"
  end.

Definition askConfirm : M bool :=
  r <- Scanln ;;
  ret (affirmative r).

(** [caStore.AddCert(cert)], [caStore.RemoveCert(cert)] and
    [caStore.GetCertificateBykID(kid)] on the store of the world. *)
Definition caStore_AddCert (cert : Certificate) : M (option string) :=
  fun w =>
    let (s', err) := AddCert (store w) cert in
    (Done err, mkWorld s' (stdin w) (entropy w) (clock w)
                       (trace w ++ [StoreAdd cert])).

Definition caStore_RemoveCert (cert : Certificate) : M (option string) :=
  fun w =>
    let (s', err) := RemoveCert (store w) cert in
    (Done err, mkWorld s' (stdin w) (entropy w) (clock w)
                       (trace w ++ [StoreRemove cert])).

Definition caStore_GetCertificateBykID (kid : string)
  : M (Certificate + string) :=
  fun w =>
    (Done (GetCertificateBykID (store w) kid),
     mkWorld (store w) (stdin w) (entropy w) (clock w)
             (trace w ++ [StoreGet kid])).

(** [rand.Int(rand.Reader, max)] on the entropy of the world. *)
Definition rand_Int (max : Z) : M (option Z) :=
  fun w =>
    let (n, rest) := Rand.Int (entropy w) max in
    (Done n, mkWorld (store w) (stdin w) rest (clock w) (trace w)).

Definition time_Now : M Z := fun w => (Done (clock w), w).

(** [printCert]: one line with the common name, the fingerprint and the
    days left.  The days are computed in floating point and are not
    rendered here; the event keeps the certificate. *)
Definition printCert (cert : Certificate) : M unit :=
  emit (PrintedCert cert).

(** The guard every command starts with:
    [if len(args) < 1 { cmd.Usage(); fatalf(msg) }]. *)
Definition need_arg (args : list string) (msg : string) : M string :=
  match args with
  | [] => emit Usage ;; fatalf msg
  | a :: _ => ret a
  end.

Definition keysRemove (args : list string) : M unit :=
  kid <- need_arg args "must specify a SHA256 SubjectKeyID of the certificate" ;;
  (* failed := true *)
  found <- caStore_GetCertificateBykID kid ;;
  failed <-
    match found with
    | inl cert =>
        emit (Printed "Removing: ") ;;
        printCert cert ;;
        err <- caStore_RemoveCert cert ;;
        match err with
        | Some _ => fatalf "failed to remove certificate from KeyStore"
        | None => ret false
        end
    | inr _ => ret true
    end ;;
  when failed (fatalf "certificate not found in any store").

Definition keysTrust (args : list string) : M unit :=
  certLocationStr <-
    need_arg args "please provide a URL or filename to a certificate" ;;
  (* Verify if argument is a valid URL *)
  cert <-
    (if match url_Parse certLocationStr with
        | inl u => negb (String.eqb (Scheme u) "")
        | inr _ => false
        end
     then
       emit (Fetched certLocationStr) ;;
       match GetCertFromURL certLocationStr with
       | inl cert => ret cert
       | inr err =>
           fatalf ("error retrieving certificate from url ("
                     ++ certLocationStr ++ "): " ++ err)
       end
     else
       emit (Statted certLocationStr) ;;
       match os_Stat certLocationStr with
       | None =>
           (* Try to load the certificate from the file *)
           emit (Loaded certLocationStr) ;;
           match LoadCertFromFile certLocationStr with
           | inl cert => ret cert
           | inr err => fatalf ("error adding certificate from file: " ++ err)
           end
       | Some _ =>
           fatalf "please provide a file location or URL for CA certificate."
       end) ;;
  (* Ask for confirmation before adding certificate into repository *)
  emit (Printed ("Are you sure you want to add trust for: "
                   ++ Pkix.CommonName (Subject cert) ++ "? (yes/no)" ++ nl)) ;;
  confirmed <- askConfirm ;;
  when (negb confirmed) (fatalf "aborting action.") ;;
  err <- caStore_AddCert cert ;;
  match err with
  | Some e => fatalf ("error adding certificate from file: " ++ e)
  | None => ret tt
  end ;;
  emit (Printed "Adding: ") ;;
  printCert cert.

(** The record [printAllPrivateKeys] derives from the path of a key file:
    the GUN and the fingerprint, in the order it prints them.  [None] is
    the panic of the slice expression [filepath.Dir(fp)[1:]] on an empty
    string. *)
Definition key_record (fp : string) : option (string * string) :=
  let fp := TrimSuffix fp (Ext fp) in
  let fp := TrimPrefix fp privDir in
  let fingerprint := Base fp in
  match slice_from_1 (Dir fp) with
  | None => None
  | Some gun => Some (gun, fingerprint)
  end.

(** The callback of the walk.  [fi] is [None] for the nil [FileInfo] that
    comes with an error; calling a method on it panics. *)
Definition printAllPrivateKeys (fp : string) (fi : option FileInfo)
  (err : option string) : M (option WalkErr) :=
  match err with
  | Some _ => ret None     (* If there are errors, ignore this particular file *)
  | None =>
      match fi with
      | None => panic "invalid memory address or nil pointer dereference"
      | Some fi =>
          if IsDir fi then ret None     (* Ignore if it is a directory *)
          else if Match_star_key (Name fi) then
            (* Only allow matches that end with our key extension .key *)
            match key_record fp with
            | None => panic "slice bounds out of range"
            | Some (gun, fingerprint) =>
                emit (Printed (gun ++ " " ++ fingerprint ++ nl)) ;;
                ret None
            end
          else ret None
      end
  end.

(** The second half of [keysGenerate], from the call of
    [generateKeyAndCert] on. *)
Definition generate_then_add (gun : string) : M unit :=
  r <- generateKeyAndCert gun ;;
  cert <-
    match r with
    | inl cert => ret cert
    | inr err => fatalf ("could not generate key: " ++ err)
    end ;;
  caStore_AddCert cert ;;
  let fingerprint := FingerprintCert cert in
  emit (Printed ("Generated new keypair with ID: " ++ " " ++ fingerprint ++ nl)).

Definition keysGenerate (args : list string) : M unit :=
  gun <- need_arg args "must specify a GUN" ;;
  match slice_0_1 gun with
  | None => panic "slice bounds out of range"
  | Some first =>
      when (String.eqb first "/" || String.eqb first backslash)
           (fatalf ("invalid Global Unique Name: " ++ gun))
  end ;;
  generate_then_add gun.

(** [time.Hour * 24 * 365 * 2], a constant of type [time.Duration]. *)
Definition two_years : Z := Time.int64 (Time.Hour * 24 * 365 * 2)%Z.

Definition newCertificate (gun organization : string) : M Certificate :=
  notBefore <- time_Now ;;
  let notAfter := Time.Add notBefore two_years in
  let serialNumberLimit := Z.shiftl 1 128 in
  r <- rand_Int serialNumberLimit ;;
  serialNumber <-
    match r with
    | Some n => ret n
    | None => fatalf ("failed to generate serial number: " ++ "unexpected EOF")
    end ;;
  ret (mkCertificate
         serialNumber
         (Pkix.mkName [organization] gun)
         notBefore
         notAfter
         (Z.lor KeyUsageKeyEncipherment KeyUsageDigitalSignature)
         [ExtKeyUsageCodeSigning]
         true).

(** *** filepath.Walk *)

Definition Join (dir name : string) : string :=
  match dir, name with
  | EmptyString, EmptyString => EmptyString
  | EmptyString, _ => Clean name
  | _, EmptyString => Clean dir
  | _, _ => Clean (dir ++ "/" ++ name)
  end.

Definition WalkFunc : Type :=
  string -> option FileInfo -> option string -> M (option WalkErr).

Definition info_of (n : Node) : FileInfo :=
  mkFileInfo (node_name n) (node_is_dir n).

(** [filepath.walk]: call [walkFn] on the node, then descend into a
    directory.  An error from [walkFn] ends the walk, except [SkipDir],
    which only skips the directory it was returned for. *)
Fixpoint walk (walkFn : WalkFunc) (path : string) (n : Node) {struct n}
  : M (option WalkErr) :=
  match n with
  | NBroken _ => walkFn path None (Some "lstat failed")
  | NFile _ => walkFn path (Some (info_of n)) None
  | NDir _ listing =>
      err <- walkFn path (Some (info_of n)) None ;;
      match err with
      | Some SkipDir => ret None
      | Some e => ret (Some e)
      | None =>
          match listing with
          | None => walkFn path (Some (info_of n)) (Some "readdir failed")
          | Some entries =>
              (fix each (l : list Node) : M (option WalkErr) :=
                 match l with
                 | [] => ret None
                 | c :: rest =>
                     let filename := Join path (node_name c) in
                     err <-
                       match c with
                       | NBroken _ =>
                           err <- walkFn filename None (Some "lstat failed") ;;
                           match err with
                           | Some SkipDir => ret None
                           | other => ret other
                           end
                       | _ =>
                           err <- walk walkFn filename c ;;
                           match err with
                           | Some SkipDir =>
                               if node_is_dir c then ret None
                               else ret (Some SkipDir)
                           | other => ret other
                           end
                       end ;;
                     match err with
                     | Some e => ret (Some e)
                     | None => each rest
                     end
                 end) entries
          end
      end
  end.

(** [filepath.Walk(root, walkFn)]; [tree] is what is found at [root]. *)
Definition Walk (root : string) (tree : Node) (walkFn : WalkFunc)
  : M (option WalkErr) :=
  walk walkFn root tree.

(** [keysList]; [tree] is what is found at [privDir]. *)
Definition keysList (tree : Node) (args : list string) : M unit :=
  match args with
  | _ :: _ => emit Usage ;; exit 1
  | [] => ret tt
  end ;;
  emit (Printed ("# Trusted Root keys: " ++ nl)) ;;
  trustedCAs <- (fun w => (Done (GetCertificates (store w)), w)) ;;
  fold_right (fun c k => printCert c ;; k) (ret tt) trustedCAs ;;
  emit (Printed ("" ++ nl)) ;;
  emit (Printed ("# Signing keys: " ++ nl)) ;;
  Walk privDir tree printAllPrivateKeys ;;
  ret tt.

End Keys.

Arguments mkWorld {Store} _ _ _ _ _.
Arguments store {Store} _.
Arguments stdin {Store} _.
Arguments entropy {Store} _.
Arguments clock {Store} _.
Arguments trace {Store} _.

(* ------------------------------------------------------------------ *)
(** ** A concrete environment

    One trust store and one set of helpers to run the commands on: the
    store is the list of trusted certificates, a fingerprint is the common
    name followed by the serial number's low byte, and only [ca.pem] and a
    file named like a URL exist on disk. *)

Module Sample.

Import GoStrings X509.

Definition Store : Type := list Certificate.

Definition FingerprintCert (c : Certificate) : string :=
  Pkix.CommonName (Subject c) ++ "#"
    ++ String (ascii_of_N (Z.to_N (SerialNumber c mod 256))) EmptyString.

Definition GetCertificateBykID (s : Store) (kid : string)
  : Certificate + string :=
  match find (fun c => String.eqb (FingerprintCert c) kid) s with
  | Some c => inl c
  | None => inr "certificate not found"
  end.

Definition GetCertificates (s : Store) : list Certificate := s.

Definition AddCert (s : Store) (c : Certificate) : Store * option string :=
  ((s ++ [c])%list, None).

(** A store whose backing directory cannot be written. *)
Definition AddCert_readonly (s : Store) (c : Certificate)
  : Store * option string :=
  (s, Some "permission denied").

Definition RemoveCert (s : Store) (c : Certificate) : Store * option string :=
  (filter (fun d => negb (String.eqb (FingerprintCert d) (FingerprintCert c))) s,
   None).

(** A store whose backing directory cannot be written. *)
Definition RemoveCert_readonly (s : Store) (c : Certificate)
  : Store * option string :=
  (s, Some "permission denied").

Definition ca : Certificate :=
  mkCertificate 65 (Pkix.mkName ["Example CA"] "example.com") 0 1000
    KeyUsageCertSign [] true.

Definition GetCertFromURL (location : string) : Certificate + string :=
  if String.eqb location "https://example.com/ca.pem" then inl ca
  else inr "404 Not Found".

Definition LoadCertFromFile (path : string) : Certificate + string :=
  if String.eqb path "ca.pem" then inl ca
  else inr "no valid certificates found".

Definition os_Stat (path : string) : option string :=
  if String.eqb path "ca.pem" || String.eqb path "https://example.com/ca.pem"
  then None
  else Some "no such file or directory".

Definition is_alpha (c : ascii) : bool :=
  let n := byte_val c in
  ((97 <=? n) && (n <=? 122) || (65 <=? n) && (n <=? 90))%Z.

Definition is_scheme_punct (c : ascii) : bool :=
  let n := byte_val c in
  ((48 <=? n) && (n <=? 57) || (n =? 43) || (n =? 45) || (n =? 46))%Z.

(** The scheme scan of [net/url]: letters, then letters, digits, [+], [-]
    and [.], up to a colon.  [acc] holds the bytes read so far, last
    first. *)
Fixpoint getscheme (acc : list ascii) (rawurl : string) : string + string :=
  match rawurl with
  | EmptyString => inl ""
  | String c r =>
      if is_alpha c then getscheme (c :: acc) r
      else if is_scheme_punct c then
        match acc with
        | [] => inl ""
        | _ => getscheme (c :: acc) r
        end
      else if Ascii.eqb c ":" then
        match acc with
        | [] => inr "missing protocol scheme"
        | _ => inl (string_of_list_ascii (rev acc))
        end
      else inl ""
  end.

Definition url_Parse (rawurl : string) : URL + string :=
  match getscheme [] rawurl with
  | inl scheme => inl (mkURL scheme)
  | inr err => inr err
  end.

Definition privDir : string := "root".

Definition generateKeyAndCert (gun : string)
  : M Store (Certificate + string) :=
  bind Store (newCertificate Store gun "docker.com/notary")
       (fun cert => ret Store (inl cert)).

(** Sixteen bytes of entropy and more. *)
Definition bytes : list ascii :=
  list_ascii_of_string "0123456789abcdefghijklmnopqrstuvwxyz".

Definition world (input : list ScanResult) : World Store :=
  mkWorld [] input bytes 1000000 [].

Definition generate : list string -> M Store unit :=
  keysGenerate Store AddCert FingerprintCert generateKeyAndCert.

Definition generate_readonly : list string -> M Store unit :=
  keysGenerate Store AddCert_readonly FingerprintCert generateKeyAndCert.

Definition trust : list string -> M Store unit :=
  keysTrust Store AddCert GetCertFromURL LoadCertFromFile url_Parse os_Stat.

Definition remove : list string -> M Store unit :=
  keysRemove Store GetCertificateBykID RemoveCert.

Definition remove_readonly : list string -> M Store unit :=
  keysRemove Store GetCertificateBykID RemoveCert_readonly.

Definition visit
  : string -> option FileInfo -> option string -> M Store (option WalkErr) :=
  printAllPrivateKeys Store privDir.

Definition list_keys : Node -> list string -> M Store unit :=
  keysList Store GetCertificates privDir.

End Sample.

(* ------------------------------------------------------------------ *)
(** ** Facts about byte strings and paths *)

Module PathFacts.

Import GoStrings Filepath.

Lemma append_nil_r (s : string) : s ++ "" = s.
Proof. induction s as [|c s IH]; simpl; [reflexivity | now rewrite IH]. Qed.

Lemma append_assoc (a b c : string) : (a ++ b) ++ c = a ++ (b ++ c).
Proof. induction a as [|x a IH]; simpl; [reflexivity | now rewrite IH]. Qed.

Lemma len_append (a b : string) : len (a ++ b) = (len a + len b)%nat.
Proof. unfold len. induction a as [|x a IH]; simpl; [reflexivity | now rewrite IH]. Qed.

Lemma take_append (a b : string) : take (len a) (a ++ b) = a.
Proof. unfold len. induction a as [|x a IH]; simpl; [now destruct b | now rewrite IH]. Qed.

Lemma drop_append (a b : string) : drop (len a) (a ++ b) = b.
Proof. unfold len. induction a as [|x a IH]; simpl; [reflexivity | exact IH]. Qed.

(** [TrimPrefix] removes a prefix that is there. *)
Lemma TrimPrefix_append (p s : string) : TrimPrefix (p ++ s) p = s.
Proof.
  unfold TrimPrefix, HasPrefix.
  rewrite take_append, String.eqb_refl, len_append.
  replace (len p <=? len p + len s)%nat with true
    by (symmetry; apply Nat.leb_le; lia).
  simpl. apply drop_append.
Qed.

(** [TrimSuffix] removes a suffix that is there. *)
Lemma TrimSuffix_append (s x : string) : TrimSuffix (s ++ x) x = s.
Proof.
  unfold TrimSuffix, HasSuffix.
  rewrite len_append.
  replace (len s + len x - len x)%nat with (len s) by lia.
  rewrite drop_append, String.eqb_refl, take_append.
  replace (len x <=? len s + len x)%nat with true
    by (symmetry; apply Nat.leb_le; lia).
  reflexivity.
Qed.

(** No byte of [s] is a separator. *)
Fixpoint no_sep (s : string) : bool :=
  match s with
  | EmptyString => true
  | String c r => negb (IsPathSeparator c) && no_sep r
  end.

Lemma split_last_no_sep (f : string) :
  no_sep f = true -> split_last f = ("", f).
Proof.
  induction f as [|c f IH]; simpl; [reflexivity|].
  intros H. apply andb_prop in H. destruct H as [Hc Hf].
  rewrite (IH Hf). destruct (IsPathSeparator c); [discriminate | reflexivity].
Qed.

(** The scan stops at the separator in front of a last element without
    separators. *)
Lemma split_last_append (d f : string) :
  no_sep f = true -> split_last (d ++ "/" ++ f) = (d ++ "/", f).
Proof.
  intros Hf. induction d as [|c d IH]; simpl.
  - now rewrite (split_last_no_sep f Hf).
  - simpl in IH. rewrite IH. destruct d; reflexivity.
Qed.

Lemma split_last_append_elem (p t : string) :
  no_sep t = true ->
  split_last (p ++ t) = (fst (split_last p), snd (split_last p) ++ t).
Proof.
  intros Ht. induction p as [|c p IH]; simpl.
  - now rewrite (split_last_no_sep t Ht).
  - rewrite IH. destruct (split_last p) as [d f]. simpl.
    destruct d; [destruct (IsPathSeparator c)|]; reflexivity.
Qed.

Lemma from_last_dot_key (f : string) : from_last_dot (f ++ ".key") = ".key".
Proof. induction f as [|c f IH]; simpl; [reflexivity | now rewrite IH]. Qed.

(** A path that ends in [.key] has the extension [.key]. *)
Lemma Ext_key (p : string) : Ext (p ++ ".key") = ".key".
Proof.
  unfold Ext. rewrite split_last_append_elem by reflexivity. simpl.
  apply from_last_dot_key.
Qed.

Lemma strip_trailing_seps_elem (f : string) :
  f <> "" -> no_sep f = true -> strip_trailing_seps f = f.
Proof.
  induction f as [|c f IH]; [congruence|].
  intros _ H. simpl in H. apply andb_prop in H. destruct H as [Hc Hf].
  simpl. destruct f as [|c' f'].
  - simpl. destruct (IsPathSeparator c); [discriminate | reflexivity].
  - rewrite IH by (congruence || assumption). reflexivity.
Qed.

Lemma strip_trailing_seps_append (p f : string) :
  f <> "" -> no_sep f = true -> strip_trailing_seps (p ++ f) = p ++ f.
Proof.
  intros Hne Hf. induction p as [|c p IH]; simpl.
  - now apply strip_trailing_seps_elem.
  - rewrite IH. destruct (p ++ f) eqn:E; [|reflexivity].
    destruct p; simpl in E; [congruence | discriminate].
Qed.

(** [Base] of a path whose last element is [f]. *)
Lemma Base_append (d f : string) :
  f <> "" -> no_sep f = true -> Base (d ++ "/" ++ f) = f.
Proof.
  intros Hne Hf. unfold Base.
  destruct (d ++ "/" ++ f) eqn:E.
  - destruct d; discriminate.
  - rewrite <- E.
    replace (d ++ "/" ++ f) with ((d ++ "/") ++ f) by apply append_assoc.
    rewrite strip_trailing_seps_append by assumption.
    rewrite append_assoc, split_last_append by assumption. simpl.
    destruct f; [congruence | reflexivity].
Qed.

(** An element [Clean] keeps: not empty, not [.] or [..], no separator. *)
Definition real_element (e : string) : bool :=
  negb (String.eqb e "") && negb (String.eqb e ".")
    && negb (String.eqb e "..") && no_sep e.

Lemma real_element_no_sep (e : string) : real_element e = true -> no_sep e = true.
Proof. unfold real_element. intros H. now apply andb_prop in H. Qed.

Lemma elements_no_sep (e : string) : no_sep e = true -> elements e = [e].
Proof.
  induction e as [|c e IH]; simpl; [reflexivity|].
  intros H. apply andb_prop in H. destruct H as [Hc He].
  rewrite (IH He). destruct (IsPathSeparator c); [discriminate | reflexivity].
Qed.

Lemma elements_append (e r : string) :
  no_sep e = true -> elements (e ++ "/" ++ r) = e :: elements r.
Proof.
  induction e as [|c e IH]; simpl; [reflexivity|].
  intros H. apply andb_prop in H. destruct H as [Hc He].
  simpl in IH. rewrite (IH He).
  destruct (IsPathSeparator c); [discriminate | reflexivity].
Qed.

(** The elements of [g1/g2/.../gn/]. *)
Lemma elements_concat (gs : list string) :
  gs <> [] -> forallb no_sep gs = true ->
  elements (String.concat "/" gs ++ "/") = (gs ++ [""])%list.
Proof.
  induction gs as [|g gs IH]; [congruence|].
  intros _ H. simpl in H. apply andb_prop in H. destruct H as [Hg Hgs].
  destruct gs as [|g' gs'].
  - simpl. change (g ++ "/") with (g ++ "/" ++ "").
    now rewrite elements_append.
  - change (String.concat "/" (g :: g' :: gs'))
      with (g ++ "/" ++ String.concat "/" (g' :: gs')).
    rewrite !append_assoc.
    change ("/" ++ String.concat "/" (g' :: gs') ++ "/")
      with ("/" ++ (String.concat "/" (g' :: gs') ++ "/")).
    rewrite elements_append by assumption.
    rewrite IH by (congruence || assumption). reflexivity.
Qed.

Lemma clean_step_real (rooted : bool) (out : list string) (e : string) :
  real_element e = true -> clean_step rooted out e = e :: out.
Proof.
  unfold real_element, clean_step. intros H.
  repeat (apply andb_prop in H; destruct H as [H ?]).
  destruct (String.eqb e ""); [discriminate|].
  destruct (String.eqb e "."); [discriminate|].
  destruct (String.eqb e ".."); [discriminate|]. reflexivity.
Qed.

Lemma fold_clean_step_real (rooted : bool) (gs out : list string) :
  forallb real_element gs = true ->
  fold_left (clean_step rooted) gs out = (rev gs ++ out)%list.
Proof.
  revert out. induction gs as [|g gs IH]; intros out H; simpl; [reflexivity|].
  simpl in H. apply andb_prop in H. destruct H as [Hg Hgs].
  rewrite clean_step_real by assumption. rewrite IH by assumption.
  now rewrite <- app_assoc.
Qed.

Lemma forallb_real_no_sep (gs : list string) :
  forallb real_element gs = true -> forallb no_sep gs = true.
Proof.
  induction gs as [|g gs IH]; simpl; [reflexivity|].
  intros H. apply andb_prop in H. destruct H as [Hg Hgs].
  now rewrite (real_element_no_sep g Hg), IH.
Qed.

(** [Clean] of the rooted directory path [/g1/.../gn/] drops the trailing
    separator and nothing else. *)
Lemma Clean_rooted_dir (gs : list string) :
  gs <> [] -> forallb real_element gs = true ->
  Clean ("/" ++ String.concat "/" gs ++ "/") = "/" ++ String.concat "/" gs.
Proof.
  intros Hne Hgs. unfold Clean.
  change ("/" ++ String.concat "/" gs ++ "/")
    with (String "/" (String.concat "/" gs ++ "/")).
  cbv beta iota. change (IsPathSeparator "/") with true. cbv beta iota zeta.
  change (elements (String "/" (String.concat "/" gs ++ "/")))
    with ("" :: elements (String.concat "/" gs ++ "/")).
  rewrite elements_concat by (assumption || now apply forallb_real_no_sep).
  simpl fold_left. change (clean_step true [] "") with (@nil string).
  rewrite fold_left_app, (fold_clean_step_real true gs []) by assumption.
  rewrite app_nil_r. simpl fold_left.
  change (clean_step true (rev gs) "") with (rev gs).
  now rewrite rev_involutive.
Qed.

(** [Clean] never returns the empty string, so neither does [Dir]. *)
Lemma Clean_not_empty (p : string) : Clean p <> "".
Proof.
  unfold Clean. destruct p as [|c p]; [discriminate|].
  destruct (IsPathSeparator c); [discriminate|].
  destruct (String.concat "/" _); discriminate.
Qed.

Lemma slice_from_1_Dir (p : string) : exists g, slice_from_1 (Dir p) = Some g.
Proof.
  unfold Dir. destruct (Clean (fst (split_last p))) eqn:E.
  - now apply Clean_not_empty in E.
  - simpl. eauto.
Qed.

End PathFacts.

(* ------------------------------------------------------------------ *)
(** ** The signing-key enumerator *)

(** The world after the events [evs] and nothing else. *)
Definition add_events {Store : Type} (w : World Store) (evs : list event)
  : World Store :=
  mkWorld (store w) (stdin w) (entropy w) (clock w) (trace w ++ evs).

Lemma add_events_nil {Store : Type} (w : World Store) : add_events w [] = w.
Proof. destruct w. unfold add_events. simpl. now rewrite app_nil_r. Qed.

Lemma add_events_app {Store : Type} (w : World Store) (a b : list event) :
  add_events (add_events w a) b = add_events w (a ++ b).
Proof. unfold add_events. simpl. now rewrite app_assoc. Qed.

(** Induction on a tree, with the hypothesis available for every entry of
    a listing. *)
Lemma Node_nested_ind (P : Node -> Prop) :
  (forall name, P (NFile name)) ->
  (forall name, P (NDir name None)) ->
  (forall name entries, Forall P entries -> P (NDir name (Some entries))) ->
  (forall name, P (NBroken name)) ->
  forall n, P n.
Proof.
  intros Hfile Hclosed Hdir Hbroken.
  fix IH 1. intros [name | name [entries|] | name].
  - apply Hfile.
  - apply Hdir. induction entries as [|c rest IHrest].
    + constructor.
    + constructor; [apply IH | exact IHrest].
  - apply Hclosed.
  - apply Hbroken.
Qed.

(** The lines the listing of a tree is expected to hold: one for each file
    whose name matches [*.key], in the order of the listings, whatever else
    the tree contains. *)
Fixpoint listed_keys (privDir path : string) (n : Node) : list event :=
  match n with
  | NFile name =>
      if Filepath.Match_star_key name then
        match key_record privDir path with
        | Some (gun, fingerprint) => [Printed (gun ++ " " ++ fingerprint ++ nl)]
        | None => []
        end
      else []
  | NDir _ (Some entries) =>
      flat_map (fun c => listed_keys privDir (Join path (node_name c)) c) entries
  | NDir _ None => []
  | NBroken _ => []
  end.

Section Enumerator.

Import GoStrings Filepath PathFacts.

Variable Store : Type.
Variable privDir : string.

Let visit := printAllPrivateKeys Store privDir.

Lemma key_record_total (fp : string) :
  exists gun fingerprint, key_record privDir fp = Some (gun, fingerprint).
Proof.
  unfold key_record.
  destruct (slice_from_1_Dir
              (TrimPrefix (TrimSuffix fp (Ext fp)) privDir)) as [g Hg].
  rewrite Hg. eauto.
Qed.

Lemma match_star_key_stem (stem : string) :
  no_sep stem = true ->
  String.eqb (stem ++ ".key") ".key" = true
  \/ match_star_key (stem ++ ".key") = true.
Proof.
  induction stem as [|c r IH]; intros H.
  - now left.
  - simpl in H. apply andb_prop in H. destruct H as [Hc Hr].
    right. simpl. destruct (IsPathSeparator c); [discriminate|].
    destruct (IH Hr) as [E | E]; rewrite E; [reflexivity|].
    now destruct (String.eqb (r ++ ".key") ".key").
Qed.

(** A name made of a stem without separators and [.key] matches the
    pattern. *)
Lemma Match_star_key_stem (stem : string) :
  no_sep stem = true -> Match_star_key (stem ++ ".key") = true.
Proof.
  intros H. unfold Match_star_key.
  destruct (match_star_key_stem stem H) as [E | E]; rewrite E;
    [reflexivity | now destruct (String.eqb (stem ++ ".key") ".key")].
Qed.

(** The record of a key file below a GUN directory. *)
Lemma key_record_below (gs : list string) (stem : string) :
  gs <> [] -> forallb real_element gs = true ->
  stem <> "" -> no_sep stem = true ->
  key_record privDir
    (privDir ++ "/" ++ String.concat "/" gs ++ "/" ++ stem ++ ".key")
  = Some (String.concat "/" gs, stem).
Proof.
  intros Hne Hgs Hstem Hsep. unfold key_record.
  set (G := String.concat "/" gs).
  replace (privDir ++ "/" ++ G ++ "/" ++ stem ++ ".key")
    with ((privDir ++ "/" ++ G ++ "/" ++ stem) ++ ".key")
    by now rewrite !append_assoc.
  rewrite Ext_key, TrimSuffix_append, TrimPrefix_append.
  replace ("/" ++ G ++ "/" ++ stem) with (("/" ++ G) ++ "/" ++ stem)
    by now rewrite !append_assoc.
  rewrite Base_append by assumption.
  unfold Dir. rewrite split_last_append by assumption.
  cbn [fst]. rewrite append_assoc.
  unfold G. rewrite Clean_rooted_dir by assumption.
  reflexivity.
Qed.

(** The record of a key file directly in the private directory. *)
Lemma key_record_top (stem : string) :
  stem <> "" -> no_sep stem = true ->
  key_record privDir (privDir ++ "/" ++ stem ++ ".key") = Some ("", stem).
Proof.
  intros Hstem Hsep. unfold key_record.
  replace (privDir ++ "/" ++ stem ++ ".key")
    with ((privDir ++ "/" ++ stem) ++ ".key")
    by now rewrite !append_assoc.
  rewrite Ext_key, TrimSuffix_append, TrimPrefix_append.
  change ("/" ++ stem) with ("" ++ "/" ++ stem).
  rewrite Base_append by assumption.
  unfold Dir. rewrite split_last_append by assumption.
  reflexivity.
Qed.

(** The callback on a file whose name matches: one line, and the walk goes
    on. *)
Lemma visit_key_file (fp name : string) (w : World Store) :
  Match_star_key name = true ->
  exists gun fingerprint,
    key_record privDir fp = Some (gun, fingerprint) /\
    visit fp (Some (mkFileInfo name false)) None w
    = (Done None, add_events w [Printed (gun ++ " " ++ fingerprint ++ nl)]).
Proof.
  intros Hm. destruct (key_record_total fp) as (g & f & E).
  exists g, f. split; [exact E|].
  unfold visit, printAllPrivateKeys. cbn [IsDir Name]. rewrite Hm, E.
  reflexivity.
Qed.

Lemma visit_error (fp : string) (fi : option FileInfo) (e : string)
  (w : World Store) :
  visit fp fi (Some e) w = (Done None, w).
Proof. reflexivity. Qed.

Lemma visit_directory (fp name : string) (w : World Store) :
  visit fp (Some (mkFileInfo name true)) None w = (Done None, w).
Proof. reflexivity. Qed.

Lemma visit_other_file (fp name : string) (w : World Store) :
  Match_star_key name = false ->
  visit fp (Some (mkFileInfo name false)) None w = (Done None, w).
Proof.
  intros Hm. unfold visit, printAllPrivateKeys. cbn [IsDir Name].
  now rewrite Hm.
Qed.

(** The walk over any tree ends without an error and has printed exactly
    the lines of [listed_keys]. *)
Lemma walk_lists_keys (n : Node) :
  forall (path : string) (w : World Store),
    walk Store visit path n w
    = (Done None, add_events w (listed_keys privDir path n)).
Proof.
  induction n as [name | name | name entries IH | name]
    using Node_nested_ind; intros path w.
  - (* a file *)
    cbn [walk listed_keys]. unfold info_of. cbn [node_name node_is_dir].
    destruct (Match_star_key name) eqn:Hm.
    + destruct (visit_key_file path name w Hm) as (g & f & E & Hv).
      rewrite Hv, E. reflexivity.
    + rewrite visit_other_file by exact Hm. now rewrite add_events_nil.
  - (* a directory that cannot be read *)
    cbn. now rewrite add_events_nil.
  - (* a directory and its entries *)
    cbn [walk listed_keys]. unfold info_of. cbn [node_name node_is_dir].
    unfold bind at 1. rewrite visit_directory.
    revert w. induction IH as [|c rest Hc Hrest IHrest]; intros w.
    + cbn. now rewrite add_events_nil.
    + cbn [flat_map]. rewrite <- add_events_app.
      rewrite <- IHrest.
      unfold bind at 1.
      destruct c as [cn | cn l | cn].
      * unfold bind at 1. rewrite Hc. reflexivity.
      * unfold bind at 1. rewrite Hc. reflexivity.
      * unfold bind at 1. cbn [listed_keys].
        rewrite visit_error, add_events_nil. reflexivity.
  - (* a name that cannot be examined *)
    cbn. now rewrite add_events_nil.
Qed.

(** C4, as amended.  A key file [stem.key] found below the private
    directory in the directory [g1/.../gn] (at least one element, none of
    them empty, [.] or [..]), with a non-empty stem, is reported with the
    fingerprint [stem] and the GUN [g1/.../gn], byte for byte: a percent
    escape in a directory name stays as it is. *)
Theorem key_file_record (gs : list string) (stem : string) (w : World Store) :
  gs <> [] -> forallb real_element gs = true ->
  stem <> "" -> no_sep stem = true ->
  let fp := privDir ++ "/" ++ String.concat "/" gs ++ "/" ++ stem ++ ".key" in
  key_record privDir fp = Some (String.concat "/" gs, stem)
  /\ printAllPrivateKeys Store privDir fp
       (Some (mkFileInfo (stem ++ ".key") false)) None w
     = (Done None,
        add_events w [Printed (String.concat "/" gs ++ " " ++ stem ++ nl)]).
Proof.
  intros Hne Hgs Hstem Hsep fp.
  pose proof (key_record_below gs stem Hne Hgs Hstem Hsep) as E.
  fold fp in E. split; [exact E|].
  destruct (visit_key_file fp (stem ++ ".key") w
              (Match_star_key_stem stem Hsep)) as (g & f & E' & Hv).
  rewrite E in E'. injection E' as <- <-. exact Hv.
Qed.

(** C9.  The callback prints nothing and returns [nil] for an entry that
    came with an error, for a directory and for a file whose name does not
    match; and the walk over any tree, whatever such entries it holds,
    ends without an error having printed the line of every matching file
    of the tree, in order. *)
Theorem walk_skips_and_goes_on (root : string) (tree : Node) (w : World Store) :
  (forall fp fi e, printAllPrivateKeys Store privDir fp fi (Some e) w
                   = (Done None, w))
  /\ (forall fp name,
        printAllPrivateKeys Store privDir fp (Some (mkFileInfo name true)) None w
        = (Done None, w))
  /\ (forall fp name,
        Match_star_key name = false ->
        printAllPrivateKeys Store privDir fp (Some (mkFileInfo name false)) None w
        = (Done None, w))
  /\ Walk Store root tree (printAllPrivateKeys Store privDir) w
     = (Done None, add_events w (listed_keys privDir root tree)).
Proof.
  repeat split.
  - intros fp name Hm. now apply visit_other_file.
  - apply walk_lists_keys.
Qed.

(** C10, at the input where the code leaves it: a file named [.key]
    directly in the private directory matches the pattern and is reported
    with the empty GUN and the fingerprint [/], not the empty stem. *)
Theorem key_record_of_bare_extension :
  Match_star_key ".key" = true
  /\ key_record privDir (privDir ++ "/" ++ ".key") = Some ("", "/")
  /\ forall w : World Store,
       printAllPrivateKeys Store privDir (privDir ++ "/" ++ ".key")
         (Some (mkFileInfo ".key" false)) None w
       = (Done None, add_events w [Printed ("" ++ " " ++ "/" ++ nl)]).
Proof.
  assert (E : key_record privDir (privDir ++ "/" ++ ".key") = Some ("", "/")).
  { unfold key_record.
    replace (privDir ++ "/" ++ ".key") with ((privDir ++ "/") ++ ".key")
      by now rewrite append_assoc.
    rewrite Ext_key, TrimSuffix_append, TrimPrefix_append. reflexivity. }
  split; [reflexivity | split; [exact E|]].
  intros w. unfold printAllPrivateKeys. cbn [IsDir Name].
  change (Match_star_key ".key") with true. cbv iota. rewrite E. reflexivity.
Qed.

End Enumerator.

(** C4 at the layout the specification names: the directory
    [docker.io/library/alpine] below [root]. *)
Lemma key_file_record_alpine :
  key_record "root" "root/docker.io/library/alpine/abc123.key"
  = Some ("docker.io/library/alpine", "abc123")
  /\ Sample.visit "root/docker.io/library/alpine/abc123.key"
       (Some (mkFileInfo "abc123.key" false)) None (Sample.world [])
     = (Done None,
        add_events (Sample.world [])
          [Printed ("docker.io/library/alpine abc123" ++ nl)]).
Proof.
  refine (key_file_record Sample.Store "root"
            ["docker.io"; "library"; "alpine"] "abc123" (Sample.world [])
            _ _ _ _);
    [discriminate | reflexivity | discriminate | reflexivity].
Defined.

(** C4 as it was stated fails at its own example: the directory name
    [docker.io%2Flibrary%2Falpine] is reported as it is, and is not the
    GUN [docker.io/library/alpine]. *)
Lemma key_record_keeps_percent_escapes :
  key_record "root" "root/docker.io%2Flibrary%2Falpine/abc123.key"
  = Some ("docker.io%2Flibrary%2Falpine", "abc123")
  /\ String.eqb "docker.io%2Flibrary%2Falpine" "docker.io/library/alpine"
     = false
  /\ trace (snd (Sample.visit "root/docker.io%2Flibrary%2Falpine/abc123.key"
                   (Some (mkFileInfo "abc123.key" false)) None
                   (Sample.world [])))
     = [Printed ("docker.io%2Flibrary%2Falpine abc123" ++ nl)].
Proof. repeat split. Qed.

(** C9 on a tree with an unreadable name, a closed directory, a directory
    named like a key and files that do not match: the three key files are
    all listed. *)
Lemma walk_skips_and_goes_on_sample :
  Walk Sample.Store "root"
    (NDir "root"
       (Some [NFile "a.key"; NBroken "lost";
              NDir "g" (Some [NFile "k1.key"; NFile "README"; NDir "h" None]);
              NDir "x.key" (Some []);
              NFile "z.key"]))
    Sample.visit (Sample.world [])
  = (Done None,
     add_events (Sample.world [])
       [Printed (" a" ++ nl); Printed ("g k1" ++ nl); Printed (" z" ++ nl)]).
Proof.
  exact (proj2 (proj2 (proj2
    (walk_skips_and_goes_on Sample.Store "root" "root"
       (NDir "root"
          (Some [NFile "a.key"; NBroken "lost";
                 NDir "g" (Some [NFile "k1.key"; NFile "README"; NDir "h" None]);
                 NDir "x.key" (Some []);
                 NFile "z.key"]))
       (Sample.world []))))).
Defined.

(* ------------------------------------------------------------------ *)
(** ** The commands *)

(** Unfold the plumbing of a command down to its case analysis. *)
Ltac run_command :=
  cbv [keysRemove keysTrust keysGenerate generate_then_add need_arg when
       askConfirm Scanln caStore_AddCert caStore_RemoveCert
       caStore_GetCertificateBykID printCert fatalf emit exit panic
       bind ret].

(** Bring a trace into the form [trace w ++ [e1; ...; en]]. *)
Ltac flatten_trace := cbn [trace store]; rewrite <- ?app_assoc; cbn [app].

Definition not_found_msg : string := "certificate not found in any store".
Definition removal_failed_msg : string :=
  "failed to remove certificate from KeyStore".

Section Remove.

Variable Store : Type.
Variable GetCertificateBykID : Store -> string -> X509.Certificate + string.
Variable RemoveCert : Store -> X509.Certificate -> Store * option string.

Let keysRemove := keysRemove Store GetCertificateBykID RemoveCert.

(** C6.  [keysRemove] looks the certificate up first.  When the lookup
    fails it stops with the not-found message and never calls
    [RemoveCert]; when the lookup succeeds and the removal fails it stops
    with the removal-failure message; the two messages differ.  When both
    succeed the command returns. *)
Theorem keysRemove_failures (kid : string) (rest : list string)
  (w : World Store) :
  (forall e,
      GetCertificateBykID (store w) kid = inr e ->
      keysRemove (kid :: rest) w
      = (Exited 1, add_events w [StoreGet kid; Fatal not_found_msg]))
  /\ (forall cert s' e,
        GetCertificateBykID (store w) kid = inl cert ->
        RemoveCert (store w) cert = (s', Some e) ->
        keysRemove (kid :: rest) w
        = (Exited 1,
           mkWorld s' (stdin w) (entropy w) (clock w)
             (trace w ++ [StoreGet kid; Printed "Removing: "; PrintedCert cert;
                          StoreRemove cert; Fatal removal_failed_msg])))
  /\ (forall cert s',
        GetCertificateBykID (store w) kid = inl cert ->
        RemoveCert (store w) cert = (s', None) ->
        keysRemove (kid :: rest) w
        = (Done tt,
           mkWorld s' (stdin w) (entropy w) (clock w)
             (trace w ++ [StoreGet kid; Printed "Removing: "; PrintedCert cert;
                          StoreRemove cert])))
  /\ String.eqb not_found_msg removal_failed_msg = false.
Proof.
  unfold keysRemove. repeat split.
  - intros e Hget. run_command. rewrite Hget. unfold add_events.
    flatten_trace. reflexivity.
  - intros cert s' e Hget Hrm. run_command. rewrite Hget. cbn [store].
    rewrite Hrm. flatten_trace. reflexivity.
  - intros cert s' Hget Hrm. run_command. rewrite Hget. cbn [store].
    rewrite Hrm. flatten_trace. reflexivity.
Qed.

End Remove.

(** C6 on the sample store: an unknown fingerprint, and a known one in a
    store that cannot be written. *)
Lemma keysRemove_failures_sample :
  Sample.remove ["nobody#A"] (Sample.world [])
  = (Exited 1,
     add_events (Sample.world []) [StoreGet "nobody#A"; Fatal not_found_msg])
  /\ Sample.remove_readonly ["example.com#A"]
       (mkWorld [Sample.ca] [] Sample.bytes 0 [])
     = (Exited 1,
        mkWorld [Sample.ca] [] Sample.bytes 0
          [StoreGet "example.com#A"; Printed "Removing: ";
           PrintedCert Sample.ca; StoreRemove Sample.ca;
           Fatal removal_failed_msg]).
Proof.
  split.
  - exact (proj1 (keysRemove_failures Sample.Store Sample.GetCertificateBykID
                    Sample.RemoveCert "nobody#A" [] (Sample.world []))
             "certificate not found" eq_refl).
  - exact (proj1 (proj2 (keysRemove_failures Sample.Store
                           Sample.GetCertificateBykID
                           Sample.RemoveCert_readonly "example.com#A" []
                           (mkWorld [Sample.ca] [] Sample.bytes 0 [])))
             Sample.ca [Sample.ca] "permission denied" eq_refl eq_refl).
Defined.

(** What [askConfirm] will answer in the world [w]: the decision on the
    next line of standard input, or on the end of input. *)
Definition next_answer {Store : Type} (w : World Store) : bool :=
  match stdin w with
  | r :: _ => affirmative r
  | [] => false
  end.

(** Every [AddCert] among the events comes after a [Scanln], and the
    latest [Scanln] before it was answered affirmatively.  [confirmed] is
    the answer to the latest [Scanln] so far. *)
Fixpoint add_only_after_yes (confirmed : bool) (evs : list event) : bool :=
  match evs with
  | [] => true
  | Scanned r :: rest => add_only_after_yes (affirmative r) rest
  | StoreAdd _ :: rest => confirmed && add_only_after_yes confirmed rest
  | _ :: rest => add_only_after_yes confirmed rest
  end.

Definition is_StoreAdd (e : event) : bool :=
  match e with
  | StoreAdd _ => true
  | _ => false
  end.

(** The event is a look at the file system: [os.Stat] or
    [LoadCertFromFile]. *)
Definition is_file_access (e : event) : bool :=
  match e with
  | Statted _ | Loaded _ => true
  | _ => false
  end.

Definition is_Fetched (e : event) : bool :=
  match e with
  | Fetched _ => true
  | _ => false
  end.

Definition invalid_source_msg : string :=
  "please provide a file location or URL for CA certificate.".

Section Trust.

Variable Store : Type.
Variable AddCert : Store -> X509.Certificate -> Store * option string.
Variable GetCertFromURL : string -> X509.Certificate + string.
Variable LoadCertFromFile : string -> X509.Certificate + string.
Variable url_Parse : string -> URL + string.
Variable os_Stat : string -> option string.

Let keysTrust :=
  keysTrust Store AddCert GetCertFromURL LoadCertFromFile url_Parse os_Stat.

(** Split on every branch [keysTrust] can take. *)
Ltac trust_cases :=
  repeat first
    [ progress cbn [negb Scheme store stdin trace entropy clock]
    | match goal with
      | |- context [match ?x with _ => _ end] =>
          match x with
          | url_Parse _ => destruct x as [[scheme]|] eqn:?
          | negb ?b => destruct b eqn:?
          | GetCertFromURL _ => destruct x eqn:?
          | LoadCertFromFile _ => destruct x eqn:?
          | os_Stat _ => destruct x eqn:?
          | stdin ?v => is_var v; destruct x as [|? ?] eqn:?
          | AddCert (store ?v) _ => is_var v; destruct x as [? [?|]] eqn:?
          | affirmative _ => destruct x eqn:?
          end
      end ].

(** In every run of [keysTrust] each [AddCert] comes after a [Scanln] that
    was answered affirmatively; and when the answer to come is not
    affirmative the command exits with status 1, the store is the one it
    started with and [AddCert] was not called. *)
Lemma keysTrust_guarded (args : list string)
  (w : World Store) :
  exists r w' evs,
    keysTrust args w = (r, w')
    /\ trace w' = (trace w ++ evs)%list
    /\ add_only_after_yes false evs = true
    /\ (next_answer w = false ->
        r = Exited 1 /\ store w' = store w
        /\ forallb (fun e => negb (is_StoreAdd e)) evs = true).
Proof.
  unfold keysTrust, next_answer. destruct args as [|location rest].
  - run_command. do 3 eexists. split; [reflexivity|]. flatten_trace.
    split; [reflexivity|]. cbn. auto.
  - run_command. trust_cases;
      try (match goal with
           | H : affirmative (mkScan _ _) = true |- _ => discriminate H
           end);
      (do 3 eexists; split; [reflexivity|]; flatten_trace;
       split; [reflexivity|]; cbn;
       repeat match goal with H : ?a = _ |- context [?a] => rewrite H end;
       cbn; split; [reflexivity|]; intros; try discriminate; auto).
Qed.

(** C5.  A location that parses as a URL with a scheme is fetched, and
    nothing in the run looks at the file system, whatever [os.Stat] would
    say about that name; a failed fetch ends the command.  Any other
    location is looked up with [os.Stat] and never fetched, and when
    [os.Stat] fails the command ends with the invalid-source message. *)
Theorem keysTrust_url_first (location : string) (rest : list string)
  (w : World Store) :
  (forall u,
      url_Parse location = inl u -> Scheme u <> "" ->
      (exists r w' evs,
          keysTrust (location :: rest) w = (r, w')
          /\ trace w' = (trace w ++ Fetched location :: evs)%list
          /\ forallb (fun e => negb (is_file_access e)) evs = true)
      /\ (forall e,
            GetCertFromURL location = inr e ->
            keysTrust (location :: rest) w
            = (Exited 1,
               add_events w
                 [Fetched location;
                  Fatal ("error retrieving certificate from url ("
                           ++ location ++ "): " ++ e)])))
  /\ ((forall u, url_Parse location = inl u -> Scheme u = "") ->
      (exists r w' evs,
          keysTrust (location :: rest) w = (r, w')
          /\ trace w' = (trace w ++ Statted location :: evs)%list
          /\ forallb (fun e => negb (is_Fetched e)) evs = true)
      /\ (forall e,
            os_Stat location = Some e ->
            keysTrust (location :: rest) w
            = (Exited 1,
               add_events w [Statted location; Fatal invalid_source_msg]))).
Proof.
  unfold keysTrust. split.
  - intros u Hu Hs.
    assert (Hb : String.eqb (Scheme u) "" = false)
      by (now apply String.eqb_neq).
    split.
    + run_command. rewrite Hu, Hb. cbn [negb].
      trust_cases;
        (do 3 eexists; split; [reflexivity|]; flatten_trace;
         split; reflexivity).
    + intros e He. run_command. rewrite Hu, Hb, He. cbn [negb].
      unfold add_events. flatten_trace. reflexivity.
  - intros Hno.
    assert (Hb : match url_Parse location with
                 | inl u => negb (String.eqb (Scheme u) "")
                 | inr _ => false
                 end = false).
    { destruct (url_Parse location) as [u|] eqn:E; [|reflexivity].
      rewrite (Hno u eq_refl). reflexivity. }
    split.
    + run_command. rewrite Hb.
      trust_cases;
        (do 3 eexists; split; [reflexivity|]; flatten_trace;
         split; reflexivity).
    + intros e He. run_command. rewrite Hb, He.
      unfold add_events. flatten_trace. reflexivity.
Qed.

(** What [keysTrust] does when [AddCert] fails after a confirmed prompt:
    the error is reported and the command exits. *)
Lemma keysTrust_reports_add_failure (location : string) (rest : list string)
  (w : World Store) (u : URL) (cert : X509.Certificate) (r : ScanResult)
  (more : list ScanResult) (s' : Store) (e : string) :
  url_Parse location = inl u -> Scheme u <> "" ->
  GetCertFromURL location = inl cert ->
  stdin w = r :: more -> affirmative r = true ->
  AddCert (store w) cert = (s', Some e) ->
  exists w',
    keysTrust (location :: rest) w = (Exited 1, w')
    /\ last (trace w') Usage
       = Fatal ("error adding certificate from file: " ++ e).
Proof.
  intros Hu Hs Hc Hin Hyes Hadd.
  assert (Hb : String.eqb (Scheme u) "" = false)
    by (now apply String.eqb_neq).
  unfold keysTrust. run_command. rewrite Hu, Hb, Hc.
  cbn [negb store stdin entropy clock trace]. rewrite Hin.
  cbn [negb store stdin entropy clock trace]. rewrite Hyes.
  cbn [negb store stdin entropy clock trace]. rewrite Hadd.
  eexists. split; [reflexivity|].
  cbn [trace]. rewrite last_last. reflexivity.
Qed.

End Trust.

(** C5 on the sample environment, where a file with the name of the URL
    exists: the certificate is fetched and the file is never looked at;
    and a name that is neither a URL nor a file is an invalid source. *)
Lemma keysTrust_url_first_sample :
  Sample.os_Stat "https://example.com/ca.pem" = None
  /\ (exists r w' evs,
         Sample.trust ["https://example.com/ca.pem"] (Sample.world []) = (r, w')
         /\ trace w' = (trace (Sample.world [])
                          ++ Fetched "https://example.com/ca.pem" :: evs)%list
         /\ forallb (fun e => negb (is_file_access e)) evs = true)
  /\ Sample.trust ["nothing"] (Sample.world [])
     = (Exited 1,
        add_events (Sample.world [])
          [Statted "nothing"; Fatal invalid_source_msg]).
Proof.
  split; [reflexivity | split].
  - refine (proj1 (proj1 (keysTrust_url_first Sample.Store Sample.AddCert
                            Sample.GetCertFromURL Sample.LoadCertFromFile
                            Sample.url_Parse Sample.os_Stat
                            "https://example.com/ca.pem" [] (Sample.world []))
                     (mkURL "https") eq_refl _)).
    discriminate.
  - refine (proj2 (proj2 (keysTrust_url_first Sample.Store Sample.AddCert
                            Sample.GetCertFromURL Sample.LoadCertFromFile
                            Sample.url_Parse Sample.os_Stat
                            "nothing" [] (Sample.world [])) _)
              "no such file or directory" eq_refl).
    intros u Hu. injection Hu as <-. reflexivity.
Defined.

Definition backslash_byte : ascii := ascii_of_nat 92.

(** Unfold the validation half of [keysGenerate] only. *)
Ltac run_validation :=
  cbv [keysGenerate need_arg bind ret when GoStrings.slice_0_1
       fatalf emit exit].

Ltac case_generation :=
  match goal with
  | |- context [generate_then_add ?S ?A ?F ?G ?gun ?w] =>
      destruct (generate_then_add S A F G gun w) as [[| |] ?]
  end.

Section Generate.

Variable Store : Type.
Variable AddCert : Store -> X509.Certificate -> Store * option string.
Variable FingerprintCert : X509.Certificate -> string.
Variable generateKeyAndCert : string -> M Store (X509.Certificate + string).

Let keysGenerate :=
  keysGenerate Store AddCert FingerprintCert generateKeyAndCert.
Let generate_then_add :=
  generate_then_add Store AddCert FingerprintCert generateKeyAndCert.

(** A GUN that starts with neither [/] nor a backslash passes the
    validation of [keysGenerate]. *)
Lemma keysGenerate_passes (c : ascii) (g : string) (rest : list string)
  (w : World Store) :
  Ascii.eqb c "/" = false -> Ascii.eqb c backslash_byte = false ->
  keysGenerate (String c g :: rest) w = generate_then_add (String c g) w.
Proof.
  intros Hs Hb. unfold keysGenerate, generate_then_add. run_validation.
  cbn [String.eqb backslash]. fold backslash_byte. rewrite Hs, Hb.
  cbn [orb]. case_generation; reflexivity.
Qed.

(** C1, on the code.  The empty GUN makes the slice expression
    [gun[0:1]] panic before anything is reported; a GUN that starts with
    [/] or a backslash is rejected with the invalid-GUN message; every
    other GUN passes on to the generation. *)
Theorem keysGenerate_validation (c : ascii) (g : string) (rest : list string)
  (w : World Store) :
  keysGenerate ("" :: rest) w = (Panicked "slice bounds out of range", w)
  /\ keysGenerate (String c g :: rest) w
     = if Ascii.eqb c "/" || Ascii.eqb c backslash_byte
       then (Exited 1,
             add_events w
               [Fatal ("invalid Global Unique Name: " ++ String c g)])
       else generate_then_add (String c g) w.
Proof.
  unfold keysGenerate, generate_then_add. split; [reflexivity|].
  run_validation.
  cbn [String.eqb backslash].
  fold backslash_byte.
  destruct (Ascii.eqb c "/"), (Ascii.eqb c backslash_byte); cbn [orb];
    try reflexivity.
  all: case_generation; reflexivity.
Qed.

(** C2, on the code.  When the generation succeeds and [AddCert] then
    fails, [keysGenerate] drops the error: it prints the fingerprint and
    returns as after a successful addition. *)
Theorem keysGenerate_drops_add_error (c : ascii) (g : string)
  (rest : list string) (w w1 : World Store) (cert : X509.Certificate)
  (s' : Store) (e : string) :
  Ascii.eqb c "/" = false -> Ascii.eqb c backslash_byte = false ->
  generateKeyAndCert (String c g) w = (Done (inl cert), w1) ->
  AddCert (store w1) cert = (s', Some e) ->
  keysGenerate (String c g :: rest) w
  = (Done tt,
     mkWorld s' (stdin w1) (entropy w1) (clock w1)
       (trace w1
          ++ [StoreAdd cert;
              Printed ("Generated new keypair with ID: " ++ " "
                         ++ FingerprintCert cert ++ nl)])).
Proof.
  intros Hs Hb Hgen Hadd.
  rewrite (keysGenerate_passes c g rest w Hs Hb).
  unfold generate_then_add. run_command. rewrite Hgen. cbn [store].
  rewrite Hadd. flatten_trace. reflexivity.
Qed.

(** The generation half of [keysGenerate] reads no confirmation: after a
    successful generation it calls [AddCert] at once, and standard input
    is what the generation left. *)
Lemma generate_then_add_unasked (gun : string) (w w1 : World Store)
  (cert : X509.Certificate) :
  generateKeyAndCert gun w = (Done (inl cert), w1) ->
  exists text,
    generate_then_add gun w
    = (Done tt,
       mkWorld (fst (AddCert (store w1) cert)) (stdin w1) (entropy w1)
         (clock w1) (trace w1 ++ [StoreAdd cert; Printed text])).
Proof.
  intros Hgen. unfold generate_then_add. run_command. rewrite Hgen.
  cbn [store]. destruct (AddCert (store w1) cert) as [s' err].
  eexists. flatten_trace. reflexivity.
Qed.

End Generate.

(** C2 on the sample store that cannot be written: the command returns
    normally, the store is still empty and no failure was reported. *)
Lemma keysGenerate_drops_add_error_sample :
  exists w',
    Sample.generate_readonly ["docker.io/library/alpine"] (Sample.world [])
    = (Done tt, w')
    /\ store w' = []
    /\ existsb (fun e => match e with Fatal _ => true | _ => false end)
         (trace w') = false.
Proof.
  eexists. split.
  - refine (keysGenerate_drops_add_error Sample.Store Sample.AddCert_readonly
              Sample.FingerprintCert Sample.generateKeyAndCert
              "d" "ocker.io/library/alpine" [] (Sample.world []) _ _ _ _
              eq_refl eq_refl _ _);
      lazy; reflexivity.
  - split; reflexivity.
Defined.

Section Confirmation.

Variable Store : Type.
Variable AddCert : Store -> X509.Certificate -> Store * option string.
Variable FingerprintCert : X509.Certificate -> string.
Variable GetCertFromURL : string -> X509.Certificate + string.
Variable LoadCertFromFile : string -> X509.Certificate + string.
Variable url_Parse : string -> URL + string.
Variable os_Stat : string -> option string.
Variable generateKeyAndCert : string -> M Store (X509.Certificate + string).

(** C3, as amended.  In every run of [keysTrust] each [AddCert] comes
    after a [Scanln] that was answered affirmatively, and when the answer
    to come is not affirmative the command exits with status 1, the store
    is the one it started with and [AddCert] was not called.
    [keysGenerate] asks nothing: once the generation has returned a
    certificate it calls [AddCert] at once and leaves standard input as
    the generation left it. *)
Theorem add_follows_confirmation (args : list string) (w : World Store) :
  (exists r w' evs,
      keysTrust Store AddCert GetCertFromURL LoadCertFromFile url_Parse
        os_Stat args w = (r, w')
      /\ trace w' = (trace w ++ evs)%list
      /\ add_only_after_yes false evs = true
      /\ (next_answer w = false ->
          r = Exited 1 /\ store w' = store w
          /\ forallb (fun e => negb (is_StoreAdd e)) evs = true))
  /\ (forall gun w1 cert,
         generateKeyAndCert gun w = (Done (inl cert), w1) ->
         exists text,
           generate_then_add Store AddCert FingerprintCert generateKeyAndCert
             gun w
           = (Done tt,
              mkWorld (fst (AddCert (store w1) cert)) (stdin w1) (entropy w1)
                (clock w1) (trace w1 ++ [StoreAdd cert; Printed text]))).
Proof.
  split.
  - apply keysTrust_guarded.
  - intros gun w1 cert Hgen. now apply generate_then_add_unasked.
Qed.

End Confirmation.

(** C3 on the sample environment: [keysTrust] answered [no] exits and
    leaves the store empty. *)
Lemma add_follows_confirmation_sample :
  exists w',
    Sample.trust ["ca.pem"] (Sample.world [mkScan "no" None]) = (Exited 1, w')
    /\ store w' = [].
Proof.
  destruct (proj1 (add_follows_confirmation Sample.Store Sample.AddCert
                     Sample.FingerprintCert Sample.GetCertFromURL
                     Sample.LoadCertFromFile Sample.url_Parse Sample.os_Stat
                     Sample.generateKeyAndCert
                     ["ca.pem"] (Sample.world [mkScan "no" None])))
    as (r & w' & evs & Hrun & _ & _ & Hno).
  destruct (Hno eq_refl) as (Hr & Hs & _).
  exists w'. split.
  - unfold Sample.trust. rewrite Hrun, Hr. reflexivity.
  - exact Hs.
Defined.

(** C3 as it was stated fails for the generate command: with [no] waiting
    on standard input, [keysGenerate] returns normally, has called
    [AddCert] without any [Scanln] before it, has not read the input, and
    the store holds the new certificate. *)
Lemma keysGenerate_adds_unasked :
  fst (Sample.generate ["docker.io/library/alpine"]
         (Sample.world [mkScan "no" None])) = Done tt
  /\ add_only_after_yes false
       (trace (snd (Sample.generate ["docker.io/library/alpine"]
                      (Sample.world [mkScan "no" None])))) = false
  /\ stdin (snd (Sample.generate ["docker.io/library/alpine"]
                   (Sample.world [mkScan "no" None]))) = [mkScan "no" None]
  /\ length (store (snd (Sample.generate ["docker.io/library/alpine"]
                           (Sample.world [mkScan "no" None])))) = 1%nat.
Proof. repeat split. Qed.

(* ------------------------------------------------------------------ *)
(** ** The certificate template *)

Module RandFacts.

Import GoStrings Rand.

Local Open Scope Z_scope.

Lemma byte_val_range (c : ascii) : 0 <= byte_val c < 256.
Proof.
  unfold byte_val. pose proof (N_ascii_bounded c). lia.
Qed.

Definition is_byte (b : Z) : Prop := 0 <= b < 256.

Lemma fold_bytes_bound (bytes : list Z) (acc : Z) :
  Forall is_byte bytes -> 0 <= acc ->
  0 <= fold_left (fun a b => a * 256 + b) bytes acc
    < (acc + 1) * 256 ^ Z.of_nat (length bytes).
Proof.
  intros H. revert acc. induction H as [|b bytes Hb _ IH]; intros acc Hacc.
  - cbn. lia.
  - cbn [fold_left length]. rewrite Nat2Z.inj_succ, Z.pow_succ_r by lia.
    unfold is_byte in Hb.
    specialize (IH (acc * 256 + b) ltac:(lia)).
    nia.
Qed.

(** The value of [n] bytes is below [256^n]. *)
Lemma SetBytes_bound (bytes : list Z) :
  Forall is_byte bytes -> 0 <= SetBytes bytes < 256 ^ Z.of_nat (length bytes).
Proof.
  intros H. unfold SetBytes.
  pose proof (fold_bytes_bound bytes 0 H ltac:(lia)). lia.
Qed.

Lemma bytes_of_reader (reader : list ascii) : Forall is_byte (map byte_val reader).
Proof.
  induction reader; cbn; constructor; [apply byte_val_range | assumption].
Qed.

Lemma mask_first_bytes (b : Z) (bytes : list Z) :
  0 < b <= 8 -> Forall is_byte bytes -> Forall is_byte (mask_first b bytes).
Proof.
  intros Hb H. destruct H as [|b0 tl H0 Htl]; cbn; constructor; [|assumption].
  unfold is_byte in *.
  replace (Z.shiftl 1 b - 1) with (Z.ones b)
    by (rewrite Z.ones_equiv, Z.shiftl_1_l; lia).
  rewrite Z.land_ones by lia.
  pose proof (Z.mod_pos_bound b0 (2 ^ b) ltac:(apply Z.pow_pos_nonneg; lia)).
  assert (2 ^ b <= 2 ^ 8) by (apply Z.pow_le_mono_r; lia).
  change (2 ^ 8) with 256 in *. lia.
Qed.

Lemma length_mask_first (b : Z) (bytes : list Z) :
  length (mask_first b bytes) = length bytes.
Proof. now destruct bytes. Qed.

(** Whatever the loop returns is below [max] and not negative. *)
Lemma Int_loop_range (rounds k : nat) (b max : Z) (reader rest : list ascii)
  (n : Z) :
  0 < b <= 8 ->
  Int_loop rounds k b max reader = (Some n, rest) -> 0 <= n < max.
Proof.
  intros Hb. revert reader.
  induction rounds as [|rounds IH]; intros reader; cbn [Int_loop].
  - discriminate.
  - destruct (length reader <? k)%nat; [discriminate|].
    destruct (SetBytes _ <? max) eqn:Hlt.
    + intros E. injection E as <- _.
      apply Z.ltb_lt in Hlt. split; [|exact Hlt].
      apply SetBytes_bound, mask_first_bytes, bytes_of_reader. exact Hb.
    + apply IH.
Qed.

(** [rand.Int] returns a value in [[0, max)]. *)
Lemma Int_range (reader rest : list ascii) (max n : Z) :
  0 < max -> Int reader max = (Some n, rest) -> 0 <= n < max.
Proof.
  intros Hmax. unfold Int.
  destruct (BitLen (max - 1) =? 0) eqn:E0.
  - intros E. injection E as <- _. lia.
  - apply Int_loop_range.
    apply Z.eqb_neq in E0.
    assert (0 <= BitLen (max - 1)).
    { unfold BitLen. destruct (max - 1 <=? 0); [lia|].
      pose proof (Z.log2_nonneg (max - 1)). lia. }
    destruct (BitLen (max - 1) mod 8 =? 0) eqn:E8; [lia|].
    apply Z.eqb_neq in E8.
    pose proof (Z.mod_pos_bound (BitLen (max - 1)) 8 ltac:(lia)). lia.
Qed.

(** For [max = 1 << 128] the loop reads sixteen bytes and keeps them all;
    the first candidate is already below [max]. *)
Lemma Int_128_unfold (reader : list ascii) :
  Int reader (Z.shiftl 1 128)
  = Int_loop (S (length reader)) 16 8 (Z.shiftl 1 128) reader.
Proof. reflexivity. Qed.

Lemma Int_128_succeeds (reader : list ascii) :
  (16 <= length reader)%nat ->
  exists n, Int reader (Z.shiftl 1 128) = (Some n, skipn 16 reader).
Proof.
  intros Hlen. rewrite Int_128_unfold. cbn [Int_loop].
  replace (length reader <? 16)%nat with false
    by (symmetry; apply Nat.ltb_ge; exact Hlen).
  set (bytes := mask_first 8 (map byte_val (firstn 16 reader))).
  assert (Hb : Forall is_byte bytes)
    by (apply mask_first_bytes, bytes_of_reader; lia).
  assert (Hl : length bytes = 16%nat).
  { unfold bytes. rewrite length_mask_first, length_map, length_firstn. lia. }
  pose proof (SetBytes_bound bytes Hb) as Hbound. rewrite Hl in Hbound.
  replace (SetBytes bytes <? Z.shiftl 1 128) with true
    by (symmetry; apply Z.ltb_lt; change (Z.shiftl 1 128) with (256 ^ 16); lia).
  eauto.
Qed.

End RandFacts.

(** [time.Hour * 24 * 730]: seven hundred and thirty days. *)
Definition days_730 : Z := (730 * 24 * Time.Hour)%Z.

Section NewCertificate.

Import X509.

Variable Store : Type.

Local Open Scope Z_scope.

Lemma KeyUsage_bits (i : Z) :
  Z.testbit (Z.lor KeyUsageKeyEncipherment KeyUsageDigitalSignature) i
  = (i =? 0) || (i =? 2).
Proof.
  change (Z.lor KeyUsageKeyEncipherment KeyUsageDigitalSignature) with 5.
  destruct i as [|p|p]; [reflexivity| |reflexivity].
  destruct p as [p|p|]; [| |reflexivity].
  - destruct p as [p|p|]; cbn; try reflexivity; destruct p; reflexivity.
  - destruct p as [p|p|]; cbn; try reflexivity; destruct p; reflexivity.
Qed.

(** C7.  Whenever [newCertificate] returns, the certificate has the GUN as
    common name, the organization as the only element of its organization
    list, a validity of exactly 730 days, the key usage bits of key
    encipherment and digital signature and no other, code signing as its
    only extended key usage, the basic-constraints flag set and a serial
    number in [[0, 2^128)]; and it does return, with the number drawn as
    serial number, whenever [rand.Int] delivers one. *)
Theorem newCertificate_fields (gun organization : string) (w : World Store) :
  (forall cert w',
      newCertificate Store gun organization w = (Done cert, w') ->
      Pkix.CommonName (Subject cert) = gun
      /\ Pkix.Organization (Subject cert) = [organization]
      /\ Time.Sub (NotAfter cert) (NotBefore cert) = days_730
      /\ KeyUsage cert = Z.lor KeyUsageKeyEncipherment KeyUsageDigitalSignature
      /\ (forall i, Z.testbit (KeyUsage cert) i = (i =? 0) || (i =? 2))
      /\ ExtKeyUsages cert = [ExtKeyUsageCodeSigning]
      /\ BasicConstraintsValid cert = true
      /\ 0 <= SerialNumber cert < 2 ^ 128)
  /\ (forall n rest,
        Rand.Int (entropy w) (Z.shiftl 1 128) = (Some n, rest) ->
        exists cert w',
          newCertificate Store gun organization w = (Done cert, w')
          /\ SerialNumber cert = n).
Proof.
  split.
  - intros cert w'.
    cbv [newCertificate time_Now rand_Int fatalf emit exit bind ret].
    destruct (Rand.Int (entropy w) (Z.shiftl 1 128)) as [[n|] rest] eqn:E;
      [|discriminate].
    intros H. injection H as <- _.
    cbn [Subject Pkix.CommonName Pkix.Organization NotAfter NotBefore KeyUsage
         ExtKeyUsages BasicConstraintsValid SerialNumber].
    repeat split.
    + unfold Time.Sub, Time.Add.
      replace (clock w + two_years - clock w) with two_years by lia.
      reflexivity.
    + apply KeyUsage_bits.
    + apply (RandFacts.Int_range (entropy w) rest (Z.shiftl 1 128) n eq_refl E).
    + change (2 ^ 128) with (Z.shiftl 1 128).
      apply (RandFacts.Int_range (entropy w) rest (Z.shiftl 1 128) n eq_refl E).
  - intros n rest E.
    cbv [newCertificate time_Now rand_Int fatalf emit exit bind ret].
    rewrite E. eauto.
Qed.

End NewCertificate.

(** C7 on the sample world, for the GUN of the specification. *)
Lemma newCertificate_fields_sample :
  exists cert w',
    newCertificate Sample.Store "docker.io/library/alpine" "docker.com/notary"
      (Sample.world []) = (Done cert, w')
    /\ Pkix.CommonName (X509.Subject cert) = "docker.io/library/alpine"
    /\ Time.Sub (X509.NotAfter cert) (X509.NotBefore cert) = days_730
    /\ (0 <= X509.SerialNumber cert < 2 ^ 128)%Z.
Proof.
  pose proof (newCertificate_fields Sample.Store "docker.io/library/alpine"
                "docker.com/notary" (Sample.world [])) as [Hfields Hruns].
  destruct (RandFacts.Int_128_succeeds (entropy (Sample.world []))
              ltac:(cbn; lia)) as [n Hn].
  destruct (Hruns n _ Hn) as (cert & w' & Hrun & _).
  destruct (Hfields cert w' Hrun) as (Hcn & _ & Hdays & _ & _ & _ & _ & Hser).
  exists cert, w'. repeat split; try assumption; apply Hser.
Defined.

(* ------------------------------------------------------------------ *)
(** ** The confirmation *)

(** Comparison without regard to case, as the specification words it, for
    strings of ASCII bytes: both sides are lowered and compared. *)
Module CaseInsensitive.

Import GoStrings Unicode.













End CaseInsensitive.


Section Confirm.

Import Unicode CaseInsensitive.

Variable Store : Type.


End Confirm.


(* ------------------------------------------------------------------ *)
(** ** Further properties of the commands *)

Section Further.

Import GoStrings Filepath PathFacts.

Variable Store : Type.
Variable privDir : string.

(** A key file [stem.key] with a non-empty stem directly in the private
    directory is reported with the empty GUN and the fingerprint
    [stem]. *)
Theorem top_level_key_record (stem : string) (w : World Store) :
  stem <> "" -> no_sep stem = true ->
  key_record privDir (privDir ++ "/" ++ stem ++ ".key") = Some ("", stem)
  /\ printAllPrivateKeys Store privDir (privDir ++ "/" ++ stem ++ ".key")
       (Some (mkFileInfo (stem ++ ".key") false)) None w
     = (Done None, add_events w [Printed ("" ++ " " ++ stem ++ nl)]).
Proof.
  intros Hstem Hsep.
  pose proof (key_record_top privDir stem Hstem Hsep) as E.
  split; [exact E|].
  unfold printAllPrivateKeys. cbn [IsDir Name].
  rewrite (Match_star_key_stem stem Hsep), E. reflexivity.
Qed.

(** Given a [FileInfo], the callback of the walk always returns [nil]: the
    slice expression [filepath.Dir(fp)[1:]] cannot panic, because [Dir]
    never returns the empty string. *)
Theorem printAllPrivateKeys_returns_nil (fp name : string) (dir : bool)
  (err : option string) (w : World Store) :
  exists w',
    printAllPrivateKeys Store privDir fp (Some (mkFileInfo name dir)) err w
    = (Done None, w').
Proof.
  unfold printAllPrivateKeys. destruct err as [e|]; [eexists; reflexivity|].
  cbn [IsDir Name]. destruct dir; [eexists; reflexivity|].
  destruct (Match_star_key name); [|eexists; reflexivity].
  destruct (key_record_total privDir fp) as (g & f & E). rewrite E.
  eexists. reflexivity.
Qed.


End Further.

Lemma top_level_key_record_sample :
  key_record "root" "root/abc123.key" = Some ("", "abc123")
  /\ Sample.visit "root/abc123.key" (Some (mkFileInfo "abc123.key" false))
       None (Sample.world [])
     = (Done None, add_events (Sample.world []) [Printed (" abc123" ++ nl)]).
Proof.
  refine (top_level_key_record Sample.Store "root" "abc123" (Sample.world [])
            _ _); [discriminate | reflexivity].
Defined.


(** [keysTrust] on a confirmed certificate and a store that cannot be
    written. *)
Lemma keysTrust_reports_add_failure_sample :
  exists w',
    keysTrust Sample.Store Sample.AddCert_readonly Sample.GetCertFromURL
      Sample.LoadCertFromFile Sample.url_Parse Sample.os_Stat
      ["https://example.com/ca.pem"] (Sample.world [mkScan "yes" None])
    = (Exited 1, w')
    /\ last (trace w') Usage
       = Fatal ("error adding certificate from file: " ++ "permission denied").
Proof.
  refine (keysTrust_reports_add_failure Sample.Store Sample.AddCert_readonly
            Sample.GetCertFromURL Sample.LoadCertFromFile Sample.url_Parse
            Sample.os_Stat "https://example.com/ca.pem" []
            (Sample.world [mkScan "yes" None]) (mkURL "https") Sample.ca
            (mkScan "yes" None) [] [] "permission denied"
            eq_refl _ eq_refl eq_refl eq_refl eq_refl).
  discriminate.
Defined.

(* ------------------------------------------------------------------ *)
(** ** From the walk to the record of each key file *)

Module WalkFacts.

Import GoStrings Filepath PathFacts.

(** A clean path: [/] or nothing, then real elements separated by [/]. *)
Definition clean_path (rooted : bool) (es : list string) : string :=
  (if rooted then "/" else "") ++ String.concat "/" es.

Lemma elements_concat_plain (es : list string) :
  es <> [] -> forallb no_sep es = true ->
  elements (String.concat "/" es) = es.
Proof.
  induction es as [|e es IH]; [congruence|].
  intros _ H. simpl in H. apply andb_prop in H. destruct H as [He Hes].
  destruct es as [|e' es'].
  - simpl. now apply elements_no_sep.
  - change (String.concat "/" (e :: e' :: es'))
      with (e ++ "/" ++ String.concat "/" (e' :: es')).
    rewrite elements_append by assumption.
    rewrite IH by (congruence || assumption). reflexivity.
Qed.

Lemma real_element_head (e : string) :
  real_element e = true ->
  exists c r, e = String c r /\ IsPathSeparator c = false.
Proof.
  intros H. pose proof (real_element_no_sep e H) as Hs.
  destruct e as [|c r]; [discriminate|].
  exists c, r. split; [reflexivity|].
  simpl in Hs. apply andb_prop in Hs. destruct Hs as [Hc _].
  now destruct (IsPathSeparator c).
Qed.

(** [Clean] leaves a clean path alone. *)
Lemma Clean_clean_path (rooted : bool) (es : list string) :
  es <> [] -> forallb real_element es = true ->
  Clean (clean_path rooted es) = clean_path rooted es.
Proof.
  intros Hne Hes. pose proof (forallb_real_no_sep es Hes) as Hsep.
  unfold clean_path. destruct rooted.
  - change ("/" ++ String.concat "/" es) with (String "/" (String.concat "/" es)).
    unfold Clean. change (IsPathSeparator "/") with true. cbv beta iota zeta.
    change (elements (String "/" (String.concat "/" es)))
      with ("" :: elements (String.concat "/" es)).
    rewrite elements_concat_plain by assumption.
    simpl fold_left. change (clean_step true [] "") with (@nil string).
    rewrite fold_clean_step_real by assumption.
    now rewrite app_nil_r, rev_involutive.
  - change ("" ++ String.concat "/" es) with (String.concat "/" es).
    destruct es as [|e es']; [congruence|].
    simpl in Hes. apply andb_prop in Hes. destruct Hes as [He Hes'].
    destruct (real_element_head e He) as (c & r & -> & Hc).
    assert (Hhead : exists rest,
               String.concat "/" (String c r :: es') = String c rest).
    { destruct es'; simpl; eauto. }
    destruct Hhead as [rest Hrest].
    unfold Clean. rewrite Hrest, Hc. rewrite <- Hrest.
    rewrite elements_concat_plain by (congruence || assumption).
    rewrite fold_clean_step_real
      by (simpl; rewrite He; exact Hes').
    rewrite app_nil_r, rev_involutive. now rewrite Hrest.
Qed.

Lemma concat_snoc (es : list string) (e : string) :
  es <> [] ->
  String.concat "/" (es ++ [e]) = String.concat "/" es ++ "/" ++ e.
Proof.
  induction es as [|x es IH]; [congruence|]. intros _.
  destruct es as [|y es'].
  - reflexivity.
  - change (String.concat "/" ((x :: y :: es') ++ [e]))
      with (x ++ "/" ++ String.concat "/" ((y :: es') ++ [e])).
    rewrite IH by congruence.
    change (String.concat "/" (x :: y :: es'))
      with (x ++ "/" ++ String.concat "/" (y :: es')).
    now rewrite !append_assoc.
Qed.

Lemma concat_app (es fs : list string) :
  es <> [] -> fs <> [] ->
  String.concat "/" (es ++ fs)
  = String.concat "/" es ++ "/" ++ String.concat "/" fs.
Proof.
  intros Hes. revert es Hes.
  induction fs as [|f fs IH]; [congruence|]. intros es Hes _.
  destruct fs as [|f' fs'].
  - now apply concat_snoc.
  - replace (es ++ f :: f' :: fs')%list with ((es ++ [f]) ++ f' :: fs')%list
      by now rewrite <- app_assoc.
    rewrite IH by (try congruence; now destruct es).
    rewrite concat_snoc by assumption.
    change (String.concat "/" (f :: f' :: fs'))
      with (f ++ "/" ++ String.concat "/" (f' :: fs')).
    now rewrite !append_assoc.
Qed.

Lemma clean_path_not_empty (rooted : bool) (es : list string) :
  es <> [] -> forallb real_element es = true -> clean_path rooted es <> "".
Proof.
  intros Hne Hes. unfold clean_path. destruct rooted; [discriminate|].
  destruct es as [|e es']; [congruence|].
  simpl in Hes. apply andb_prop in Hes. destruct Hes as [He _].
  destruct (real_element_head e He) as (c & r & -> & _).
  destruct es'; discriminate.
Qed.

Lemma Join_not_empty (dir name : string) :
  dir <> "" -> name <> "" -> Join dir name = Clean (dir ++ "/" ++ name).
Proof. destruct dir, name; try congruence; reflexivity. Qed.

(** [Join] of a clean path and a real element is the clean path with one
    more element. *)
Lemma Join_clean_path (rooted : bool) (es : list string) (e : string) :
  es <> [] -> forallb real_element es = true -> real_element e = true ->
  Join (clean_path rooted es) e = clean_path rooted (es ++ [e]).
Proof.
  intros Hne Hes He.
  assert (Hall : forallb real_element (es ++ [e]) = true)
    by (rewrite forallb_app, Hes; simpl; now rewrite He).
  assert (Hshape : clean_path rooted es ++ "/" ++ e
                   = clean_path rooted (es ++ [e])).
  { unfold clean_path. rewrite concat_snoc by assumption.
    now rewrite !append_assoc. }
  rewrite Join_not_empty.
  - rewrite Hshape. apply Clean_clean_path; [now destruct es | exact Hall].
  - now apply clean_path_not_empty.
  - destruct (real_element_head e He) as (c & r & -> & _). discriminate.
Qed.

End WalkFacts.

(** The file [f] lies in the tree [n], a directory, below the
    directories [gs] (outermost first). *)
Inductive file_at : Node -> list string -> string -> Prop :=
| file_here (name : string) (entries : list Node) (f : string) :
    In (NFile f) entries ->
    file_at (NDir name (Some entries)) [] f
| file_below (name : string) (entries : list Node) (g : string)
    (sub : option (list Node)) (gs : list string) (f : string) :
    In (NDir g sub) entries ->
    file_at (NDir g sub) gs f ->
    file_at (NDir name (Some entries)) (g :: gs) f.

Section WalkRecords.

Import GoStrings Filepath PathFacts WalkFacts.

Variable Store : Type.

(** The private directory as a clean path. *)
Variable rooted : bool.
Variable ds : list string.
Hypothesis ds_not_empty : ds <> [].
Hypothesis ds_real : forallb real_element ds = true.

Let privDir := clean_path rooted ds.

Lemma entry_path (done : list string) :
  done <> [] ->
  clean_path rooted (ds ++ done) = privDir ++ "/" ++ String.concat "/" done.
Proof.
  intros Hdone. unfold privDir, clean_path.
  rewrite concat_app by assumption.
  now rewrite !append_assoc.
Qed.

(** The line of a key file found while the walk is at the directories
    [done] below the private directory. *)
Lemma listed_keys_file_at (n : Node) (gs : list string) (f : string) :
  file_at n gs f ->
  forall done : list string,
    forallb real_element done = true ->
    forallb real_element gs = true ->
    real_element f = true ->
    Match_star_key f = true ->
    exists gun fingerprint,
      key_record privDir (clean_path rooted (ds ++ done ++ gs ++ [f]))
      = Some (gun, fingerprint)
      /\ In (Printed (gun ++ " " ++ fingerprint ++ nl))
           (listed_keys privDir (clean_path rooted (ds ++ done)) n).
Proof.
  induction 1 as [name entries f Hin | name entries g sub gs f Hin Hat IH];
    intros done Hdone Hgs Hf Hm.
  - destruct (key_record_total privDir
                (clean_path rooted (ds ++ done ++ [] ++ [f])))
      as (gun & fp & E).
    exists gun, fp. split; [exact E|].
    cbn [listed_keys]. apply in_flat_map. exists (NFile f).
    split; [exact Hin|]. cbn [listed_keys node_name]. rewrite Hm.
    rewrite Join_clean_path
      by first [ assumption
               | destruct ds; [congruence | discriminate]
               | now rewrite forallb_app, ds_real, Hdone ].
    cbn [app] in E. rewrite <- app_assoc, E. now left.
  - simpl in Hgs. apply andb_prop in Hgs. destruct Hgs as [Hg Hgs].
    destruct (IH (done ++ [g])%list) as (gun & fp & E & Hin');
      try assumption.
    { rewrite forallb_app, Hdone. simpl. now rewrite Hg. }
    exists gun, fp. split.
    + rewrite <- E. do 2 f_equal. now rewrite <- !app_assoc.
    + cbn [listed_keys]. apply in_flat_map. exists (NDir g sub).
      split; [exact Hin|]. cbn [node_name].
      rewrite Join_clean_path
        by first [ assumption
                 | destruct ds; [congruence | discriminate]
                 | now rewrite forallb_app, ds_real, Hdone ].
      now rewrite <- app_assoc.
Qed.

Lemma key_name_real (stem : string) :
  no_sep stem = true -> real_element (stem ++ ".key") = true.
Proof.
  intros Hsep. unfold real_element.
  assert (Hlen : forall t, (len t < 4)%nat ->
                           String.eqb (stem ++ ".key") t = false).
  { intros t Ht. apply String.eqb_neq. intros E.
    apply (f_equal len) in E. rewrite len_append in E.
    change (len ".key") with 4%nat in E. lia. }
  rewrite !Hlen by (cbn; lia). cbn [negb andb].
  clear Hlen. induction stem as [|c r IH]; [reflexivity|].
  simpl in Hsep. apply andb_prop in Hsep. destruct Hsep as [Hc Hr].
  simpl. now rewrite Hc, IH.
Qed.

(** The walk over the private directory prints, for every key file
    [stem.key] with a non-empty stem that lies in the tree below the
    directories [gs], the line with the GUN [g1/.../gn] (empty directly in
    the private directory) and the fingerprint [stem]. *)
Theorem walk_prints_every_key (tree : Node) (gs : list string)
  (stem : string) (w : World Store) :
  file_at tree gs (stem ++ ".key") ->
  forallb real_element gs = true ->
  stem <> "" -> no_sep stem = true ->
  exists w' evs,
    Walk Store privDir tree (printAllPrivateKeys Store privDir) w
    = (Done None, w')
    /\ trace w' = (trace w ++ evs)%list
    /\ In (Printed (String.concat "/" gs ++ " " ++ stem ++ nl)) evs.
Proof.
  intros Hat Hgs Hstem Hsep.
  exists (add_events w (listed_keys privDir privDir tree)),
         (listed_keys privDir privDir tree).
  split; [apply walk_lists_keys | split; [reflexivity|]].
  destruct (listed_keys_file_at tree gs (stem ++ ".key") Hat [] eq_refl Hgs
              (key_name_real stem Hsep) (Match_star_key_stem stem Hsep))
    as (gun & fp & E & Hin).
  rewrite app_nil_r in Hin. fold privDir in Hin.
  cbn [app] in E.
  rewrite entry_path in E by (destruct gs; discriminate).
  destruct gs as [|g gs'].
  - cbn [app String.concat] in E.
    rewrite key_record_top in E by assumption.
    injection E as <- <-. exact Hin.
  - rewrite concat_snoc in E by congruence.
    rewrite key_record_below in E by (assumption || congruence).
    injection E as <- <-. exact Hin.
Qed.

End WalkRecords.

(** The walk over [root] with a key below [docker.io/library/alpine],
    next to entries the walk skips. *)
Lemma walk_prints_every_key_sample :
  exists w' evs,
    Walk Sample.Store "root"
      (NDir "root"
         (Some [NBroken "lost";
                NDir "docker.io"
                  (Some [NFile "README";
                         NDir "library"
                           (Some [NDir "alpine"
                                    (Some [NFile "abc123.key"])])])]))
      Sample.visit (Sample.world [])
    = (Done None, w')
    /\ trace w' = (trace (Sample.world []) ++ evs)%list
    /\ In (Printed ("docker.io/library/alpine abc123" ++ nl)) evs.
Proof.
  refine (walk_prints_every_key Sample.Store false ["root"] _ eq_refl
            _ ["docker.io"; "library"; "alpine"] "abc123" (Sample.world [])
            _ eq_refl _ eq_refl).
  - discriminate.
  - eapply file_below; [right; left; reflexivity|].
    eapply file_below; [right; left; reflexivity|].
    eapply file_below; [left; reflexivity|].
    apply file_here. left. reflexivity.
  - discriminate.
Defined.

(* ------------------------------------------------------------------ *)
(** ** The listing command *)

Section List.

Variable Store : Type.
Variable GetCertificates : Store -> list X509.Certificate.
Variable privDir : string.

(** The loop [for _, c := range trustedCAs { printCert(c) }]. *)
Lemma print_each_cert (cs : list X509.Certificate) (w : World Store) :
  fold_right (fun c k => bind Store (printCert Store c) (fun _ => k))
    (ret Store tt) cs w
  = (Done tt, add_events w (map PrintedCert cs)).
Proof.
  revert w. induction cs as [|c cs IH]; intros w.
  - cbn. now rewrite add_events_nil.
  - cbn [fold_right map]. unfold bind at 1, printCert, emit.
    rewrite IH. unfold add_events. cbn [store stdin entropy clock trace].
    now rewrite <- app_assoc.
Qed.

(** [keysList] with an argument prints the usage and exits with status 1
    before anything is listed.  Without arguments it always returns: it
    prints the first heading, one line per certificate of the store in the
    order [GetCertificates] gives them, an empty line, the second heading
    and then the line of every key file of the tree, whatever the walk
    meets on its way; the store and standard input are as before. *)
Theorem keysList_output (tree : Node) (args : list string) (w : World Store) :
  keysList Store GetCertificates privDir tree args w
  = match args with
    | [] =>
        (Done tt,
         add_events w
           (Printed ("# Trusted Root keys: " ++ nl)
              :: map PrintedCert (GetCertificates (store w))
              ++ [Printed ("" ++ nl); Printed ("# Signing keys: " ++ nl)]
              ++ listed_keys privDir privDir tree))
    | _ :: _ => (Exited 1, add_events w [Usage])
    end.
Proof.
  destruct args as [|a rest]; [|reflexivity].
  unfold keysList, Walk.
  unfold bind at 1. cbn [ret].
  unfold bind at 1. unfold emit at 1.
  unfold bind at 1. cbn [store stdin entropy clock trace].
  unfold bind at 1. rewrite print_each_cert.
  unfold bind at 1. unfold emit at 1.
  unfold bind at 1. unfold emit at 1.
  unfold bind at 1. rewrite walk_lists_keys.
  unfold ret, add_events. cbn [store stdin entropy clock trace].
  rewrite <- !app_assoc. reflexivity.
Qed.

End List.

(* ------------------------------------------------------------------ *)
(** ** The generate and trust commands, case by case *)

(** More of the sample environment: a key generator that fails, and a
    file on disk that holds no certificate. *)
Module Scenario.

Definition generateKeyAndCert_failing (gun : string)
  : M Sample.Store (X509.Certificate + string) :=
  ret Sample.Store (inr "crypto/rsa: too few primes").

Definition LoadCertFromFile_garbage (path : string)
  : X509.Certificate + string :=
  inr "no valid certificates found".

End Scenario.

Definition could_not_generate (err : string) : string :=
  "could not generate key: " ++ err.

Definition generated_line (fingerprint : string) : string :=
  "Generated new keypair with ID: " ++ " " ++ fingerprint ++ nl.

Section GenerateOutcomes.

Variable Store : Type.
Variable AddCert : Store -> X509.Certificate -> Store * option string.
Variable FingerprintCert : X509.Certificate -> string.
Variable generateKeyAndCert : string -> M Store (X509.Certificate + string).

Let generate := keysGenerate Store AddCert FingerprintCert generateKeyAndCert.

(** After the validation [keysGenerate] does what the generation allows.
    When the generation returns an error the command reports it and exits
    with status 1; when the generation itself exits or panics so does the
    command; in neither case is [AddCert] called.  When the generation
    returns a certificate, [AddCert] is called once, with that
    certificate, and the identifier printed is its fingerprint. *)
Theorem keysGenerate_outcomes (c : ascii) (g : string) (rest : list string)
  (w w1 : World Store) :
  Ascii.eqb c "/" = false -> Ascii.eqb c backslash_byte = false ->
  (forall e,
      generateKeyAndCert (String c g) w = (Done (inr e), w1) ->
      generate (String c g :: rest) w
      = (Exited 1, add_events w1 [Fatal (could_not_generate e)]))
  /\ (forall code,
        generateKeyAndCert (String c g) w = (Exited code, w1) ->
        generate (String c g :: rest) w = (Exited code, w1))
  /\ (forall msg,
        generateKeyAndCert (String c g) w = (Panicked msg, w1) ->
        generate (String c g :: rest) w = (Panicked msg, w1))
  /\ (forall cert,
        generateKeyAndCert (String c g) w = (Done (inl cert), w1) ->
        generate (String c g :: rest) w
        = (Done tt,
           mkWorld (fst (AddCert (store w1) cert)) (stdin w1) (entropy w1)
             (clock w1)
             (trace w1
                ++ [StoreAdd cert;
                    Printed (generated_line (FingerprintCert cert))]))).
Proof.
  intros Hs Hb. unfold generate.
  rewrite (keysGenerate_passes Store AddCert FingerprintCert
             generateKeyAndCert c g rest w Hs Hb).
  repeat split.
  - intros e Hgen. run_command. rewrite Hgen. reflexivity.
  - intros code Hgen. run_command. rewrite Hgen. reflexivity.
  - intros msg Hgen. run_command. rewrite Hgen. reflexivity.
  - intros cert Hgen. run_command. rewrite Hgen. cbn [store].
    destruct (AddCert (store w1) cert) as [s' err].
    flatten_trace. reflexivity.
Qed.

End GenerateOutcomes.

(** A generation that fails, in the sample world: the command exits and
    the store stays empty. *)
Lemma keysGenerate_outcomes_sample :
  keysGenerate Sample.Store Sample.AddCert Sample.FingerprintCert
    Scenario.generateKeyAndCert_failing ["docker.io/library/alpine"]
    (Sample.world [])
  = (Exited 1,
     add_events (Sample.world [])
       [Fatal (could_not_generate "crypto/rsa: too few primes")]).
Proof.
  exact (proj1 (keysGenerate_outcomes Sample.Store Sample.AddCert
                  Sample.FingerprintCert Scenario.generateKeyAndCert_failing
                  "d" "ocker.io/library/alpine" [] (Sample.world [])
                  (Sample.world []) eq_refl eq_refl)
           "crypto/rsa: too few primes" eq_refl).
Defined.

Definition trust_prompt (cert : X509.Certificate) : string :=
  "Are you sure you want to add trust for: "
    ++ Pkix.CommonName (X509.Subject cert) ++ "? (yes/no)" ++ nl.

Definition add_failed (err : string) : string :=
  "error adding certificate from file: " ++ err.

Section TrustOutcomes.

Variable Store : Type.
Variable AddCert : Store -> X509.Certificate -> Store * option string.
Variable GetCertFromURL : string -> X509.Certificate + string.
Variable LoadCertFromFile : string -> X509.Certificate + string.
Variable url_Parse : string -> URL + string.
Variable os_Stat : string -> option string.

Let trust :=
  keysTrust Store AddCert GetCertFromURL LoadCertFromFile url_Parse os_Stat.

(** The test [err == nil && url.Scheme != ""] of [keysTrust]. *)
Definition has_scheme (location : string) : bool :=
  match url_Parse location with
  | inl u => negb (String.eqb (Scheme u) "")
  | inr _ => false
  end.

(** A confirmed run of [keysTrust] that succeeds: the certificate added is
    the one that was fetched, or loaded, from the location; the prompt
    names its common name and comes before the one line that is read from
    standard input; [AddCert] is called once; and the command ends by
    printing the certificate. *)
Theorem keysTrust_adds_what_it_resolved (location : string)
  (rest : list string) (w : World Store) (cert : X509.Certificate)
  (r : ScanResult) (more : list ScanResult) (s' : Store) :
  stdin w = r :: more -> affirmative r = true ->
  AddCert (store w) cert = (s', None) ->
  (has_scheme location = true ->
   GetCertFromURL location = inl cert ->
   trust (location :: rest) w
   = (Done tt,
      mkWorld s' more (entropy w) (clock w)
        (trace w
           ++ [Fetched location; Printed (trust_prompt cert); Scanned r;
               StoreAdd cert; Printed "Adding: "; PrintedCert cert])))
  /\ (has_scheme location = false ->
      os_Stat location = None ->
      LoadCertFromFile location = inl cert ->
      trust (location :: rest) w
      = (Done tt,
         mkWorld s' more (entropy w) (clock w)
           (trace w
              ++ [Statted location; Loaded location;
                  Printed (trust_prompt cert); Scanned r;
                  StoreAdd cert; Printed "Adding: "; PrintedCert cert]))).
Proof.
  intros Hin Hyes Hadd. unfold trust, has_scheme. split.
  - intros Hurl Hget. run_command. rewrite Hurl, Hget.
    cbn [negb store stdin entropy clock trace]. rewrite Hin.
    cbn [negb store stdin entropy clock trace]. rewrite Hyes.
    cbn [negb store stdin entropy clock trace]. rewrite Hadd.
    flatten_trace. reflexivity.
  - intros Hurl Hstat Hload. run_command. rewrite Hurl, Hstat, Hload.
    cbn [negb store stdin entropy clock trace]. rewrite Hin.
    cbn [negb store stdin entropy clock trace]. rewrite Hyes.
    cbn [negb store stdin entropy clock trace]. rewrite Hadd.
    flatten_trace. reflexivity.
Qed.

(** [keysTrust] on a file reports a file that holds no certificate and a
    trust store that refuses the certificate with the same words: the
    first ends the command before the prompt, the second after the
    confirmation, and for the same error text the two messages are
    equal. *)
Theorem keysTrust_load_and_add_failures_read_alike (location : string)
  (rest : list string) (w : World Store) (e : string) :
  has_scheme location = false -> os_Stat location = None ->
  (LoadCertFromFile location = inr e ->
   trust (location :: rest) w
   = (Exited 1,
      add_events w
        [Statted location; Loaded location; Fatal (add_failed e)]))
  /\ (forall cert r more s',
         LoadCertFromFile location = inl cert ->
         stdin w = r :: more -> affirmative r = true ->
         AddCert (store w) cert = (s', Some e) ->
         trust (location :: rest) w
         = (Exited 1,
            mkWorld s' more (entropy w) (clock w)
              (trace w
                 ++ [Statted location; Loaded location;
                     Printed (trust_prompt cert); Scanned r; StoreAdd cert;
                     Fatal (add_failed e)]))).
Proof.
  intros Hurl Hstat. unfold trust, has_scheme in *. split.
  - intros Hload. run_command. rewrite Hurl, Hstat, Hload.
    unfold add_events. flatten_trace. reflexivity.
  - intros cert r more s' Hload Hin Hyes Hadd.
    run_command. rewrite Hurl, Hstat, Hload.
    cbn [negb store stdin entropy clock trace]. rewrite Hin.
    cbn [negb store stdin entropy clock trace]. rewrite Hyes.
    cbn [negb store stdin entropy clock trace]. rewrite Hadd.
    flatten_trace. reflexivity.
Qed.

End TrustOutcomes.

(** Trusting [ca.pem] from the sample disk, confirmed with [Yes]. *)
Lemma keysTrust_adds_what_it_resolved_sample :
  Sample.trust ["ca.pem"] (Sample.world [mkScan "Yes" None])
  = (Done tt,
     mkWorld [Sample.ca] [] Sample.bytes 1000000
       [Statted "ca.pem"; Loaded "ca.pem"; Printed (trust_prompt Sample.ca);
        Scanned (mkScan "Yes" None); StoreAdd Sample.ca; Printed "Adding: ";
        PrintedCert Sample.ca]).
Proof.
  exact (proj2 (keysTrust_adds_what_it_resolved Sample.Store Sample.AddCert
                  Sample.GetCertFromURL Sample.LoadCertFromFile
                  Sample.url_Parse Sample.os_Stat "ca.pem" []
                  (Sample.world [mkScan "Yes" None]) Sample.ca
                  (mkScan "Yes" None) [] [Sample.ca] eq_refl eq_refl eq_refl)
           eq_refl eq_refl eq_refl).
Defined.

(** A file without a certificate, and a store that cannot be written:
    both end with the same message. *)
Lemma keysTrust_load_and_add_failures_read_alike_sample :
  keysTrust Sample.Store Sample.AddCert Sample.GetCertFromURL
    Scenario.LoadCertFromFile_garbage Sample.url_Parse Sample.os_Stat
    ["ca.pem"] (Sample.world [])
  = (Exited 1,
     add_events (Sample.world [])
       [Statted "ca.pem"; Loaded "ca.pem";
        Fatal (add_failed "no valid certificates found")])
  /\ keysTrust Sample.Store Sample.AddCert_readonly Sample.GetCertFromURL
       Sample.LoadCertFromFile Sample.url_Parse Sample.os_Stat
       ["ca.pem"] (Sample.world [mkScan "y" None])
     = (Exited 1,
        mkWorld [] [] Sample.bytes 1000000
          [Statted "ca.pem"; Loaded "ca.pem"; Printed (trust_prompt Sample.ca);
           Scanned (mkScan "y" None); StoreAdd Sample.ca;
           Fatal (add_failed "permission denied")]).
Proof.
  split.
  - exact (proj1 (keysTrust_load_and_add_failures_read_alike Sample.Store
                    Sample.AddCert Sample.GetCertFromURL
                    Scenario.LoadCertFromFile_garbage Sample.url_Parse
                    Sample.os_Stat "ca.pem" [] (Sample.world [])
                    "no valid certificates found" eq_refl eq_refl)
             eq_refl).
  - exact (proj2 (keysTrust_load_and_add_failures_read_alike Sample.Store
                    Sample.AddCert_readonly Sample.GetCertFromURL
                    Sample.LoadCertFromFile Sample.url_Parse
                    Sample.os_Stat "ca.pem" []
                    (Sample.world [mkScan "y" None])
                    "permission denied" eq_refl eq_refl)
             Sample.ca (mkScan "y" None) [] [] eq_refl eq_refl eq_refl
             eq_refl).
Defined.

(* ------------------------------------------------------------------ *)
(** ** What building a certificate touches *)

Module RandReads.

Import GoStrings Rand.

(** A successful loop has consumed at least [k] bytes of the reader and
    leaves a suffix of it. *)
Lemma Int_loop_consumes (rounds k : nat) (b max : Z)
  (reader rest : list ascii) (n : Z) :
  Int_loop rounds k b max reader = (Some n, rest) ->
  exists used,
    reader = (used ++ rest)%list /\ (k <= length used)%nat.
Proof.
  revert reader. induction rounds as [|rounds IH]; intros reader;
    cbn [Int_loop]; [discriminate|].
  destruct (length reader <? k)%nat eqn:Hk; [discriminate|].
  apply Nat.ltb_ge in Hk.
  destruct (SetBytes _ <? max)%Z.
  - intros E. injection E as _ <-. exists (firstn k reader). split.
    + now rewrite firstn_skipn.
    + rewrite length_firstn. lia.
  - intros E. destruct (IH _ E) as (used & Hused & Hlen).
    exists (firstn k reader ++ used)%list. split.
    + rewrite <- app_assoc, <- Hused. now rewrite firstn_skipn.
    + rewrite length_app. lia.
Qed.

End RandReads.

Section NewCertificateEffects.

Import X509.

Variable Store : Type.

(** [newCertificate] reads the clock and the random source and nothing
    else.  When it returns, the trust store, standard input, the clock and
    everything printed are as before; the bytes left in the random source
    are a proper suffix of what was there; the certificate is valid from
    the instant read from the clock, and that instant plus 730 days of
    nanoseconds is its end. *)
Theorem newCertificate_effects (gun organization : string)
  (w w' : World Store) (cert : Certificate) :
  newCertificate Store gun organization w = (Done cert, w') ->
  store w' = store w /\ stdin w' = stdin w /\ clock w' = clock w
  /\ trace w' = trace w
  /\ (exists used,
         entropy w = (used ++ entropy w')%list /\ used <> [])
  /\ NotBefore cert = clock w
  /\ NotAfter cert = (clock w + days_730)%Z.
Proof.
  cbv [newCertificate time_Now rand_Int fatalf emit exit bind ret].
  destruct (Rand.Int (entropy w) (Z.shiftl 1 128)) as [[n|] rest] eqn:E;
    [|discriminate].
  intros H. injection H as <- <-.
  cbn [store stdin clock trace entropy NotBefore NotAfter].
  repeat split.
  rewrite RandFacts.Int_128_unfold in E.
  destruct (RandReads.Int_loop_consumes _ _ _ _ _ _ _ E)
    as (used & Hused & Hlen).
  exists used. split; [exact Hused|].
  intros ->. cbn in Hlen. lia.
Qed.

End NewCertificateEffects.

(** In the sample world the sixteen bytes [0] to [f] are used and the rest
    is left for the next call. *)
Lemma newCertificate_effects_sample :
  exists cert w',
    newCertificate Sample.Store "docker.io/library/alpine" "docker.com/notary"
      (Sample.world []) = (Done cert, w')
    /\ store w' = store (Sample.world [])
    /\ X509.NotBefore cert = 1000000%Z
    /\ X509.NotAfter cert = (1000000 + days_730)%Z.
Proof.
  eexists. eexists. split; [lazy; reflexivity|].
  destruct (newCertificate_effects Sample.Store "docker.io/library/alpine"
              "docker.com/notary" (Sample.world []) _ _ eq_refl)
    as (Hs & _ & _ & _ & _ & Hb & Ha).
  repeat split; assumption.
Defined.

(* ------------------------------------------------------------------ *)
(** ** A private directory written with a trailing separator *)

Module CleanFacts.

Import GoStrings Filepath PathFacts WalkFacts.

(** [Clean] is decided by whether the path is rooted and by what the
    loop leaves of its elements. *)
Lemma Clean_of_elements (rooted : bool) (c : ascii) (p : string)
  (es : list string) :
  IsPathSeparator c = rooted ->
  es <> [] -> forallb real_element es = true ->
  fold_left (clean_step rooted) (elements (String c p)) [] = rev es ->
  Clean (String c p) = clean_path rooted es.
Proof.
  intros Hc Hne Hes Hfold. unfold Clean. rewrite Hc, Hfold, rev_involutive.
  unfold clean_path. destruct rooted; [reflexivity|].
  pose proof (clean_path_not_empty false es Hne Hes) as Hbody.
  unfold clean_path in Hbody. cbn [append] in *.
  destruct (String.concat "/" es); [congruence | reflexivity].
Qed.

Lemma elements_concat_then (es : list string) (r : string) :
  es <> [] -> forallb no_sep es = true ->
  elements (String.concat "/" es ++ "/" ++ r) = (es ++ elements r)%list.
Proof.
  induction es as [|e es IH]; [congruence|].
  intros _ H. simpl in H. apply andb_prop in H. destruct H as [He Hes].
  destruct es as [|e' es'].
  - simpl String.concat. now rewrite elements_append.
  - change (String.concat "/" (e :: e' :: es'))
      with (e ++ "/" ++ String.concat "/" (e' :: es')).
    rewrite !append_assoc.
    change ("/" ++ String.concat "/" (e' :: es') ++ "/" ++ r)
      with ("/" ++ (String.concat "/" (e' :: es') ++ "/" ++ r)).
    rewrite elements_append by assumption.
    rewrite IH by (congruence || assumption). reflexivity.
Qed.

Lemma fold_clean_step_app (rooted : bool) (es : list string)
  (tl : list string) (out : list string) :
  forallb real_element es = true ->
  fold_left (clean_step rooted) (es ++ tl) out
  = fold_left (clean_step rooted) tl (rev es ++ out)%list.
Proof.
  intros Hes. now rewrite fold_left_app, (fold_clean_step_real rooted es out Hes).
Qed.

(** A clean path followed by two separators and a real element cleans to
    the path with that element appended. *)
Lemma Clean_double_separator (rooted : bool) (es : list string) (e : string) :
  es <> [] -> forallb real_element es = true -> real_element e = true ->
  Clean ((clean_path rooted es ++ "/") ++ "/" ++ e)
  = clean_path rooted (es ++ [e]).
Proof.
  intros Hne Hes He.
  pose proof (forallb_real_no_sep es Hes) as Hsep.
  pose proof (real_element_no_sep e He) as Hesep.
  assert (Hall : forallb real_element (es ++ [e]) = true)
    by (rewrite forallb_app, Hes; simpl; now rewrite He).
  assert (Hne' : (es ++ [e])%list <> []) by (now destruct es).
  assert (Hfold : forall r,
             fold_left (clean_step r) (es ++ [""; e]) [] = rev (es ++ [e])).
  { intros r. rewrite fold_clean_step_app by assumption.
    cbn [fold_left]. change (clean_step r (rev es ++ []) "")
      with (rev es ++ [])%list.
    rewrite clean_step_real by assumption.
    now rewrite app_nil_r, rev_app_distr. }
  assert (Hel : elements (String.concat "/" es ++ "/" ++ "/" ++ e)
                = (es ++ [""; e])%list).
  { rewrite elements_concat_then by assumption.
    change ("/" ++ e) with (String "/" e). cbn [elements].
    change (IsPathSeparator "/") with true. cbv iota.
    now rewrite elements_no_sep. }
  assert (Hpath : (clean_path rooted es ++ "/") ++ "/" ++ e
                  = (if rooted then "/" else "")
                      ++ (String.concat "/" es ++ "/" ++ "/" ++ e)).
  { unfold clean_path. now rewrite !append_assoc. }
  rewrite Hpath. clear Hpath. destruct rooted.
  - change ("/" ++ (String.concat "/" es ++ "/" ++ "/" ++ e))
      with (String "/" (String.concat "/" es ++ "/" ++ "/" ++ e)).
    apply Clean_of_elements; try first [assumption | reflexivity].
    change (elements (String "/" (String.concat "/" es ++ "/" ++ "/" ++ e)))
      with ("" :: elements (String.concat "/" es ++ "/" ++ "/" ++ e)).
    rewrite Hel. cbn [fold_left]. exact (Hfold true).
  - change ("" ++ (String.concat "/" es ++ "/" ++ "/" ++ e))
      with (String.concat "/" es ++ "/" ++ "/" ++ e).
    destruct es as [|x es']; [congruence|].
    simpl in Hes. apply andb_prop in Hes. destruct Hes as [Hx Hes'].
    destruct (real_element_head x Hx) as (c & r & -> & Hc).
    assert (Hhead : exists rest,
               String.concat "/" (String c r :: es') ++ "/" ++ "/" ++ e
               = String c rest).
    { destruct es'; simpl; eauto. }
    destruct Hhead as [rest Hrest]. rewrite Hrest.
    apply Clean_of_elements; try assumption.
    rewrite <- Hrest, Hel. exact (Hfold false).
Qed.

(** [Clean] of a relative directory path [g1/.../gn/]. *)
Lemma Clean_relative_dir (gs : list string) :
  gs <> [] -> forallb real_element gs = true ->
  Clean (String.concat "/" gs ++ "/") = String.concat "/" gs.
Proof.
  intros Hne Hgs. pose proof (forallb_real_no_sep gs Hgs) as Hsep.
  destruct gs as [|x gs']; [congruence|].
  pose proof Hgs as Hgs0.
  simpl in Hgs. apply andb_prop in Hgs. destruct Hgs as [Hx Hgs'].
  destruct (real_element_head x Hx) as (c & r & -> & Hc).
  assert (Hhead : exists rest,
             String.concat "/" (String c r :: gs') ++ "/" = String c rest).
  { destruct gs'; simpl; eauto. }
  destruct Hhead as [rest Hrest]. rewrite Hrest.
  change (String.concat "/" (String c r :: gs'))
    with (clean_path false (String c r :: gs')).
  apply Clean_of_elements; try first [assumption | discriminate].
  rewrite <- Hrest, elements_concat by (congruence || assumption).
  rewrite fold_clean_step_app by assumption. cbn [fold_left].
  change (clean_step false (rev (String c r :: gs') ++ []) "")
    with (rev (String c r :: gs') ++ [])%list.
  now rewrite app_nil_r.
Qed.

Lemma Base_element (f : string) :
  f <> "" -> no_sep f = true -> Base f = f.
Proof.
  intros Hne Hsep. unfold Base. destruct f as [|c r] eqn:E; [congruence|].
  rewrite <- E in *. rewrite strip_trailing_seps_elem by assumption.
  rewrite split_last_no_sep by assumption. cbn [snd]. now rewrite E.
Qed.

End CleanFacts.

Section TrailingSeparator.

Import GoStrings Filepath PathFacts WalkFacts CleanFacts.

Variable Store : Type.

(** The private directory is a clean path followed by a separator, as in
    [keys/] or [/home/user/.notary/private/]. *)
Variable rooted : bool.
Variable ds : list string.
Hypothesis ds_not_empty : ds <> [].
Hypothesis ds_real : forallb real_element ds = true.

Let privDir := clean_path rooted ds ++ "/".

(** The walk hands an entry of the private directory over under a clean
    path: [Join] drops the doubled separator. *)
Lemma Join_trailing (e : string) :
  real_element e = true -> Join privDir e = clean_path rooted (ds ++ [e]).
Proof.
  intros He. unfold privDir. rewrite Join_not_empty.
  - now apply Clean_double_separator.
  - destruct (clean_path rooted ds); discriminate.
  - destruct (real_element_head e He) as (c & r & -> & _). discriminate.
Qed.

Lemma ds_app_real (done : list string) :
  forallb real_element done = true ->
  (ds ++ done)%list <> [] /\ forallb real_element (ds ++ done) = true.
Proof.
  intros Hdone. split; [destruct ds; [congruence | discriminate]|].
  now rewrite forallb_app, ds_real, Hdone.
Qed.

(** Below the first level the walk goes on as from a clean root. *)
Lemma listed_keys_below (n : Node) (gs : list string) (f : string) :
  file_at n gs f ->
  forall done : list string,
    forallb real_element done = true ->
    forallb real_element gs = true ->
    real_element f = true ->
    Match_star_key f = true ->
    exists gun fingerprint,
      key_record privDir (clean_path rooted (ds ++ done ++ gs ++ [f]))
      = Some (gun, fingerprint)
      /\ In (Printed (gun ++ " " ++ fingerprint ++ nl))
           (listed_keys privDir (clean_path rooted (ds ++ done)) n).
Proof.
  induction 1 as [name entries f Hin | name entries g sub gs f Hin Hat IH];
    intros done Hdone Hgs Hf Hm.
  - destruct (key_record_total privDir
                (clean_path rooted (ds ++ done ++ [] ++ [f])))
      as (gun & fp & E).
    exists gun, fp. split; [exact E|].
    cbn [listed_keys]. apply in_flat_map. exists (NFile f).
    split; [exact Hin|]. cbn [listed_keys node_name]. rewrite Hm.
    destruct (ds_app_real done Hdone) as [Hne Hall].
    rewrite Join_clean_path by assumption.
    cbn [app] in E. rewrite <- app_assoc, E. now left.
  - simpl in Hgs. apply andb_prop in Hgs. destruct Hgs as [Hg Hgs].
    destruct (IH (done ++ [g])%list) as (gun & fp & E & Hin');
      try assumption.
    { rewrite forallb_app, Hdone. simpl. now rewrite Hg. }
    exists gun, fp. split.
    + rewrite <- E. do 2 f_equal. now rewrite <- !app_assoc.
    + cbn [listed_keys]. apply in_flat_map. exists (NDir g sub).
      split; [exact Hin|]. cbn [node_name].
      destruct (ds_app_real done Hdone) as [Hne Hall].
      rewrite Join_clean_path by assumption.
      now rewrite <- app_assoc.
Qed.

(** The record of a key file as the walk presents it: the private
    directory with its separator is cut off, so the rest does not start
    with a separator and the slice [[1:]] takes the first byte of the GUN
    away. *)
Lemma key_record_trailing (gs : list string) (stem : string) :
  forallb real_element gs = true -> stem <> "" -> no_sep stem = true ->
  key_record privDir (clean_path rooted (ds ++ gs ++ [stem ++ ".key"]))
  = Some (drop 1 (String.concat "/" gs), stem).
Proof.
  intros Hgs Hstem Hsep.
  rewrite (entry_path rooted ds ds_not_empty (gs ++ [stem ++ ".key"]))
    by (now destruct gs).
  unfold key_record. destruct gs as [|g gs'].
  - cbn [app String.concat].
    replace (clean_path rooted ds ++ "/" ++ stem ++ ".key")
      with ((privDir ++ stem) ++ ".key")
      by (unfold privDir; now rewrite !append_assoc).
    rewrite Ext_key, TrimSuffix_append, TrimPrefix_append.
    rewrite Base_element by assumption.
    unfold Dir. rewrite split_last_no_sep by assumption. reflexivity.
  - set (G := String.concat "/" (g :: gs')).
    rewrite concat_snoc by congruence. fold G.
    replace (clean_path rooted ds ++ "/" ++ G ++ "/" ++ stem ++ ".key")
      with ((privDir ++ G ++ "/" ++ stem) ++ ".key")
      by (unfold privDir; now rewrite !append_assoc).
    rewrite Ext_key, TrimSuffix_append, TrimPrefix_append.
    rewrite Base_append by assumption.
    unfold Dir. rewrite split_last_append by assumption. cbn [fst].
    unfold G. rewrite Clean_relative_dir by (congruence || assumption).
    fold G.
    assert (HG : exists c r, G = String c r).
    { unfold G. simpl in Hgs. apply andb_prop in Hgs. destruct Hgs as [Hg _].
      destruct (real_element_head g Hg) as (c & r & -> & _).
      destruct gs'; simpl; eauto. }
    destruct HG as (c & r & ->). reflexivity.
Qed.

(** With the private directory configured with a trailing separator, the
    walk still lists every key file [stem.key] with a non-empty stem, with
    the fingerprint [stem]; but the GUN it prints for a file below the
    directories [g1/.../gn] is [g1/.../gn] without its first byte.  A file
    directly in the private directory is listed with the empty GUN. *)
Theorem walk_with_trailing_separator (name : string) (entries : list Node)
  (gs : list string) (stem : string) (w : World Store) :
  file_at (NDir name (Some entries)) gs (stem ++ ".key") ->
  forallb real_element gs = true ->
  stem <> "" -> no_sep stem = true ->
  exists w' evs,
    Walk Store privDir (NDir name (Some entries))
      (printAllPrivateKeys Store privDir) w
    = (Done None, w')
    /\ trace w' = (trace w ++ evs)%list
    /\ In (Printed (drop 1 (String.concat "/" gs) ++ " " ++ stem ++ nl)) evs.
Proof.
  intros Hat Hgs Hstem Hsep.
  exists (add_events w (listed_keys privDir privDir (NDir name (Some entries)))),
         (listed_keys privDir privDir (NDir name (Some entries))).
  split; [apply walk_lists_keys | split; [reflexivity|]].
  pose proof (key_name_real stem Hsep) as Hf.
  pose proof (Match_star_key_stem stem Hsep) as Hm.
  pose proof (key_record_trailing gs stem Hgs Hstem Hsep) as Hrec.
  cbn [listed_keys]. apply in_flat_map.
  inversion Hat as [n0 es0 f0 Hin | n0 es0 g sub gs' f0 Hin Hsub]; subst.
  - exists (NFile (stem ++ ".key")). split; [exact Hin|].
    cbn [listed_keys node_name]. rewrite Hm, Join_trailing by exact Hf.
    cbn [app] in Hrec. rewrite Hrec. now left.
  - exists (NDir g sub). split; [exact Hin|]. cbn [node_name].
    simpl in Hgs. apply andb_prop in Hgs. destruct Hgs as [Hg Hgs'].
    rewrite Join_trailing by exact Hg.
    destruct (listed_keys_below (NDir g sub) gs' (stem ++ ".key") Hsub [g])
      as (gun & fp & E & Hin'); try assumption.
    { simpl. now rewrite Hg. }
    cbn [app] in E, Hrec. rewrite Hrec in E. injection E as <- <-.
    exact Hin'.
Qed.

End TrailingSeparator.

(** The private directory [root/]: the key of [docker.io/library/alpine]
    is listed under [ocker.io/library/alpine]. *)
Lemma walk_with_trailing_separator_sample :
  exists w' evs,
    Walk Sample.Store "root/"
      (NDir "root"
         (Some [NDir "docker.io"
                  (Some [NDir "library"
                           (Some [NDir "alpine"
                                    (Some [NFile "abc123.key"])])])]))
      (printAllPrivateKeys Sample.Store "root/") (Sample.world [])
    = (Done None, w')
    /\ trace w' = (trace (Sample.world []) ++ evs)%list
    /\ In (Printed ("ocker.io/library/alpine abc123" ++ nl)) evs.
Proof.
  refine (walk_with_trailing_separator Sample.Store false ["root"] _ eq_refl
            "root" _ ["docker.io"; "library"; "alpine"] "abc123"
            (Sample.world []) _ eq_refl _ eq_refl).
  - discriminate.
  - eapply file_below; [left; reflexivity|].
    eapply file_below; [left; reflexivity|].
    eapply file_below; [left; reflexivity|].
    apply file_here. left. reflexivity.
  - discriminate.
Defined.

(* ------------------------------------------------------------------ *)
(** ** What the remove command leaves alone *)


Section RemoveEffects.

Variable Store : Type.
Variable GetCertificateBykID : Store -> string -> X509.Certificate + string.
Variable RemoveCert : Store -> X509.Certificate -> Store * option string.


End RemoveEffects.
